(** * parse_transaction.py: a shallow embedding and its properties

    The program reads the text an OCR service recognised on a bank
    notification and extracts amounts, dates, a time, a merchant, card
    data, reference and account numbers and a transaction type, then
    validates the assembled record.

    Modelling choices.
    - A Python [str] is a [list ascii]: a sequence of code points, here
      the code points below 256 (Latin-1).  The tables of [str.lower],
      [str.isspace], [\d], [\s] and [\w] below are those of CPython for
      that range, and "every text" in the statements below ranges over
      such texts.
    - The [re] module is embedded as a backtracking matcher over a small
      pattern syntax; every pattern of the program is written in that
      syntax next to its source text.
    - A Python [float] is a [spec_float] (binary64); [float(s)] rounds the
      decimal numeral to the nearest binary64 with the division of
      [SpecFloat], and [format(x, ',.2f')] prints the exact value of the
      float rounded to two decimals.
    - Dictionaries with a fixed set of keys are records; [None] and
      missing keys are [option]s; [ValueError] in [float] is [None].
    - The iteration order of a [set] of strings is a parameter of a run.

    The file has three parts: the Python library functions the program
    uses, the program, and the properties. *)

From Stdlib Require Import List Bool Arith Lia ZArith NArith QArith.
From Stdlib Require Import Ascii String.
From Stdlib Require Import SpecFloat.
From Stdlib Require Import Permutation.
Import ListNotations.

Local Open Scope list_scope.
Local Open Scope nat_scope.

(** ** Python strings *)

Module Py.

Definition str := list ascii.

(** A string literal of the source. *)
Definition lit (s : string) : str := list_ascii_of_string s.

Definition code (c : ascii) : N := N_of_ascii c.

Definition between (lo hi : N) (c : ascii) : bool :=
  (N.leb lo (code c) && N.leb (code c) hi)%bool.

Definition is_digit (c : ascii) : bool := between 48 57 c.
Definition is_upper_az (c : ascii) : bool := between 65 90 c.
Definition is_lower_az (c : ascii) : bool := between 97 122 c.

(** [str.isspace] and the class [\s]. *)
Definition is_space (c : ascii) : bool :=
  (between 9 13 c || between 28 32 c
   || N.eqb (code c) 133 || N.eqb (code c) 160)%bool.

(** The class [\w]: alphanumeric code points and the underscore. *)
Definition is_word (c : ascii) : bool :=
  (is_digit c || is_upper_az c || is_lower_az c || N.eqb (code c) 95
   || N.eqb (code c) 170 || between 178 179 c || N.eqb (code c) 181
   || between 185 186 c || between 188 190 c
   || between 192 214 c || between 216 246 c || between 248 255 c)%bool.

(** [str.lower] on one code point. *)
Definition lower_char (c : ascii) : ascii :=
  if (is_upper_az c || between 192 214 c || between 216 222 c)%bool
  then ascii_of_N (code c + 32) else c.

(** [str.upper] on one code point, where the result is again a single
    code point below 256; the other three code points (181, 223, 255) are
    left unchanged. *)
Definition upper_char (c : ascii) : ascii :=
  if (is_lower_az c || between 224 246 c || between 248 254 c)%bool
  then ascii_of_N (code c - 32) else c.

Definition lower (s : str) : str := map lower_char s.

Definition eqb (a b : str) : bool :=
  if list_eq_dec ascii_dec a b then true else false.

Fixpoint startswith (p s : str) : bool :=
  match p, s with
  | [], _ => true
  | a :: p', b :: s' => (Ascii.eqb a b && startswith p' s')%bool
  | _ :: _, [] => false
  end.

(** [sub in s]. *)
Fixpoint contains (sub s : str) : bool :=
  (startswith sub s
   || match s with [] => false | _ :: s' => contains sub s' end)%bool.

(** [c in s] for a one-character string [c]. *)
Definition has_char (c : ascii) (s : str) : bool := existsb (Ascii.eqb c) s.

(** [s.count(c)] for a one-character string [c]. *)
Definition count_char (c : ascii) (s : str) : nat :=
  List.length (filter (Ascii.eqb c) s).

(** [s.replace(c, new)] for a one-character string [c]. *)
Definition replace_char (c : ascii) (new : str) (s : str) : str :=
  flat_map (fun x => if Ascii.eqb x c then new else [x]) s.

(** [s.split(c)[-1]]: the text after the last occurrence of [c]. *)
Fixpoint last_segment (c : ascii) (s : str) : str :=
  match s with
  | [] => []
  | x :: s' => if has_char c s' then last_segment c s'
               else if Ascii.eqb x c then s' else s
  end.

Fixpoint lstrip (s : str) : str :=
  match s with
  | c :: s' => if is_space c then lstrip s' else s
  | [] => []
  end.

Definition rstrip (s : str) : str := rev (lstrip (rev s)).

(** [s.strip()]. *)
Definition strip (s : str) : str := rstrip (lstrip s).

(** [str(x)] for an optional string: [None] prints as its name. *)
Definition format_opt (o : option str) : str :=
  match o with Some s => s | None => lit "None" end.

(** [str(n)] for a natural number. *)
Fixpoint digits_of_pos_fuel (fuel : nat) (n : N) (acc : str) : str :=
  match fuel with
  | O => acc
  | S f =>
      let d := ascii_of_N (48 + N.modulo n 10) in
      if N.ltb n 10 then d :: acc
      else digits_of_pos_fuel f (N.div n 10) (d :: acc)
  end.

Definition str_of_N (n : N) : str :=
  digits_of_pos_fuel (S (N.to_nat (N.log2 n))) n [].

Definition str_of_nat (n : nat) : str := str_of_N (N.of_nat n).

End Py.

Import Py.

(** ** The [re] module *)

Module Re.

(** The items of a character set; a literal character is a set of one
    item. *)
Inductive item : Type :=
| IChar (c : ascii)              (* a character *)
| IRange (lo hi : ascii)         (* [lo-hi] *)
| IDigit                         (* \d *)
| ISpace.                        (* \s *)

(** Patterns.  [Rep greedy lo hi r] is [r{lo,hi}] ([hi = None]: no upper
    bound), lazy when [greedy] is false; [Grp i r] is the capturing
    group numbered [i]. *)
Inductive regex : Type :=
| Eps
| Sym (items : list item)
| Seq (r1 r2 : regex)
| Alt (r1 r2 : regex)
| Rep (greedy : bool) (lo : nat) (hi : option nat) (r : regex)
| Grp (i : nat) (r : regex)
| WordB                          (* \b *)
| Eol.                           (* $ *)

(** The flag [re.IGNORECASE]. *)
Definition item_match (icase : bool) (it : item) (c : ascii) : bool :=
  match it with
  | IChar x =>
      if icase then Ascii.eqb (lower_char c) (lower_char x) else Ascii.eqb c x
  | IRange lo hi =>
      (between (code lo) (code hi) c
       || (icase && (between (code lo) (code hi) (lower_char c)
                     || between (code lo) (code hi) (upper_char c))))%bool
  | IDigit => is_digit c
  | ISpace => is_space c
  end.

Definition sym_match (icase : bool) (items : list item) (c : ascii) : bool :=
  existsb (fun it => item_match icase it c) items.

(** The matcher's state: the current position, the character before
    it, the text from it on, and the groups captured so far (most recent
    first). *)
Record mstate : Type := MState {
  pos : nat;
  prev : option ascii;
  rest : str;
  caps : list (nat * str)
}.

Definition word_opt (o : option ascii) : bool :=
  match o with Some c => is_word c | None => false end.

Definition at_boundary (st : mstate) : bool :=
  xorb (word_opt (prev st)) (word_opt (hd_error (rest st))).

(** [$] without [re.MULTILINE]: the end of the text, or just before a
    final line feed. *)
Definition at_eol (st : mstate) : bool :=
  match rest st with
  | [] => true
  | [c] => N.eqb (code c) 10
  | _ => false
  end.

Definition below (n : nat) (hi : option nat) : bool :=
  match hi with Some h => n <? h | None => true end.

(** The text between two states of one match. *)
Definition consumed (st st1 : mstate) : str :=
  firstn (pos st1 - pos st) (rest st).

Section Matcher.

Variable icase : bool.
Variable A : Type.

(** The iterations of [r{lo,hi}]: [body] matches [r] once, [n] counts the
    iterations done, and [k] is what follows the repetition.  A greedy
    repetition tries one more iteration before it tries to stop, a lazy
    one the other way round.  Every iteration must consume input (all
    repeated sub-patterns of this program do), so the length of the
    remaining text bounds their number: [fuel] starts above it. *)
Fixpoint rep_loop (body : mstate -> (mstate -> option A) -> option A)
  (greedy : bool) (lo : nat) (hi : option nat) (k : mstate -> option A)
  (fuel n : nat) (st : mstate) {struct fuel} : option A :=
  let stop (_ : unit) := if lo <=? n then k st else None in
  if below n hi then
    match fuel with
    | O => stop tt
    | S f =>
        let more (_ : unit) :=
          body st (fun st1 =>
            if pos st <? pos st1
            then rep_loop body greedy lo hi k f (S n) st1 else None) in
        if greedy then
          match more tt with Some a => Some a | None => stop tt end
        else
          match stop tt with Some a => Some a | None => more tt end
    end
  else stop tt.

(** Backtracking matcher in continuation-passing style: [k] is what
    remains to be matched, and the first alternative for which [k]
    succeeds wins. *)
Fixpoint run (r : regex) (st : mstate) (k : mstate -> option A)
  {struct r} : option A :=
  match r with
  | Eps => k st
  | Sym items =>
      match rest st with
      | c :: s' =>
          if sym_match icase items c
          then k (MState (S (pos st)) (Some c) s' (caps st)) else None
      | [] => None
      end
  | Seq r1 r2 => run r1 st (fun st1 => run r2 st1 k)
  | Alt r1 r2 =>
      match run r1 st k with
      | Some a => Some a
      | None => run r2 st k
      end
  | Rep greedy lo hi r1 =>
      rep_loop (run r1) greedy lo hi k (S (List.length (rest st))) 0 st
  | Grp i r1 =>
      run r1 st (fun st1 =>
        k (MState (pos st1) (prev st1) (rest st1)
                  ((i, consumed st st1) :: caps st1)))
  | WordB => if at_boundary st then k st else None
  | Eol => if at_eol st then k st else None
  end.

End Matcher.

Arguments rep_loop {A} body greedy lo hi k fuel n st.
Arguments run icase {A} r st k.

(** Match objects: the text from the start of the match, the length of
    the match and the captured groups. *)
Record match_obj : Type := MatchObj {
  m_text : str;
  m_len : nat;
  m_caps : list (nat * str)
}.

Fixpoint lookup (i : nat) (cs : list (nat * str)) : option str :=
  match cs with
  | [] => None
  | (j, w) :: cs' => if i =? j then Some w else lookup i cs'
  end.

(** [m.group(0)] and [m.group(i)]; a group that took no part in the match
    is [None]. *)
Definition group0 (m : match_obj) : str := firstn (m_len m) (m_text m).
Definition group (i : nat) (m : match_obj) : option str := lookup i (m_caps m).

(** The number of capturing groups of a pattern, [len(m.groups())]. *)
Fixpoint ngroups (r : regex) : nat :=
  match r with
  | Seq r1 r2 | Alt r1 r2 => ngroups r1 + ngroups r2
  | Rep _ _ _ r1 => ngroups r1
  | Grp _ r1 => S (ngroups r1)
  | _ => 0
  end.

(** A match that starts at the current position. *)
Definition match_here (icase : bool) (r : regex) (p : option ascii) (s : str)
  : option match_obj :=
  run icase r (MState 0 p s [])
    (fun st => Some (MatchObj s (pos st) (caps st))).

(** [re.search]: the leftmost position with a match. *)
Fixpoint search_from (icase : bool) (r : regex) (p : option ascii) (s : str)
  : option match_obj :=
  match match_here icase r p s with
  | Some m => Some m
  | None =>
      match s with
      | [] => None
      | c :: s' => search_from icase r (Some c) s'
      end
  end.

Definition search (icase : bool) (r : regex) (s : str) : option match_obj :=
  search_from icase r None s.

(** The successive non-overlapping matches, left to right; [skip] counts
    the characters still covered by the previous match.  After an empty
    match the scan moves on by one character (no pattern of this program
    matches the empty string). *)
Fixpoint finditer_from (icase : bool) (r : regex) (skip : nat)
  (p : option ascii) (s : str) : list match_obj :=
  match s with
  | [] =>
      match skip, match_here icase r p [] with
      | O, Some m => [m]
      | _, _ => []
      end
  | c :: s' =>
      match skip with
      | S n => finditer_from icase r n (Some c) s'
      | O =>
          match match_here icase r p s with
          | Some m => m :: finditer_from icase r (pred (m_len m)) (Some c) s'
          | None => finditer_from icase r 0 (Some c) s'
          end
      end
  end.

Definition finditer (icase : bool) (r : regex) (s : str) : list match_obj :=
  finditer_from icase r 0 None s.

(** [re.findall] for a pattern with at most one group: the whole match
    when the pattern has no group, else group 1 (the empty string when
    the group took no part in the match). *)
Definition findall_item (r : regex) (m : match_obj) : str :=
  match ngroups r with
  | O => group0 m
  | S _ => match group 1 m with Some w => w | None => [] end
  end.

Definition findall (icase : bool) (r : regex) (s : str) : list str :=
  map (findall_item r) (finditer icase r s).

(** [re.sub(r, repl, s)] for a replacement text without group
    references. *)
Fixpoint sub_from (icase : bool) (r : regex) (repl : str) (skip : nat)
  (p : option ascii) (s : str) : str :=
  match s with
  | [] =>
      match skip, match_here icase r p [] with
      | O, Some _ => repl
      | _, _ => []
      end
  | c :: s' =>
      match skip with
      | S n => sub_from icase r repl n (Some c) s'
      | O =>
          match match_here icase r p s with
          | Some m =>
              match m_len m with
              | O => repl ++ c :: sub_from icase r repl 0 (Some c) s'
              | S n => repl ++ sub_from icase r repl n (Some c) s'
              end
          | None => c :: sub_from icase r repl 0 (Some c) s'
          end
      end
  end.

Definition sub (icase : bool) (r : regex) (repl s : str) : str :=
  sub_from icase r repl 0 None s.

(** Pattern syntax used below. *)
Definition chr (c : string) : regex :=
  match lit c with
  | [x] => Sym [IChar x]
  | _ => Eps
  end.

Definition word (w : string) : regex :=
  fold_right (fun c r => Seq (Sym [IChar c]) r) Eps (lit w).

Definition digit : regex := Sym [IDigit].
Definition space : regex := Sym [ISpace].
Definition range (lo hi : string) : item :=
  match lit lo, lit hi with
  | [a], [b] => IRange a b
  | _, _ => ISpace
  end.

Definition star (r : regex) : regex := Rep true 0 None r.
Definition plus (r : regex) : regex := Rep true 1 None r.
Definition plus_lazy (r : regex) : regex := Rep false 1 None r.
Definition opt (r : regex) : regex := Rep true 0 (Some 1) r.
Definition times (lo hi : nat) (r : regex) : regex := Rep true lo (Some hi) r.
Definition exactly (n : nat) (r : regex) : regex := Rep true n (Some n) r.
Definition at_least (n : nat) (r : regex) : regex := Rep true n None r.

Fixpoint seq (rs : list regex) : regex :=
  match rs with
  | [] => Eps
  | [r] => r
  | r :: rs' => Seq r (seq rs')
  end.

Fixpoint alt (rs : list regex) : regex :=
  match rs with
  | [] => Eps
  | [r] => r
  | r :: rs' => Alt r (alt rs')
  end.

End Re.

(** ** Python floats *)

Module Float.

Definition prec : Z := 53.
Definition emax : Z := 1024.

(** The binary64 nearest to [n / 10^k] (ties to even). *)
Definition of_decimal (n : N) (k : nat) : spec_float :=
  match n with
  | N0 => S754_zero false
  | Npos p =>
      SFdiv prec emax (S754_finite false p 0)
                      (S754_finite false (Z.to_pos (Z.pow 10 (Z.of_nat k))) 0)
  end.

Fixpoint digits_value (s : str) (acc : N) : option N :=
  match s with
  | [] => Some acc
  | c :: s' =>
      if is_digit c then digits_value s' (acc * 10 + (code c - 48))%N
      else None
  end.

(** The text before and after the first ["."]. *)
Fixpoint split_point (s : str) : str * option str :=
  match s with
  | [] => ([], None)
  | c :: s' =>
      if Ascii.eqb c "."%char then ([], Some s')
      else let (a, b) := split_point s' in (c :: a, b)
  end.

(** [float(s)] for a text [s] made of digits, periods and commas, the
    only texts the program converts: [Some] for a decimal numeral with at
    least one digit and at most one period, [None] where Python raises
    [ValueError]. *)
Definition of_str (s : str) : option spec_float :=
  let (ip, fp) := split_point s in
  let fp' := match fp with Some f => f | None => [] end in
  match ip ++ fp' with
  | [] => None
  | ds =>
      match digits_value ds 0 with
      | Some n => Some (of_decimal n (List.length fp'))
      | None => None
      end
  end.

(** The number a float denotes, when it is finite. *)
Definition value (f : spec_float) : option Q :=
  match f with
  | S754_zero _ => Some 0%Q
  | S754_finite s m e =>
      let z := if s then Zneg m else Zpos m in
      Some (Qred (match e with
                  | Z0 => z # 1
                  | Zpos p => (z * Z.pow 2 (Zpos p)) # 1
                  | Zneg p => z # (Pos.pow 2 p)
                  end))
  | _ => None
  end.

(** [round(x * 10^d)] for the number [x = m * 2^e], ties to even. *)
Definition scaled_round (d : nat) (m : positive) (e : Z) : N :=
  let num := (Npos m * N.pow 10 (N.of_nat d))%N in
  match e with
  | Z0 => num
  | Zpos p => (num * N.pow 2 (Npos p))%N
  | Zneg p =>
      let den := N.pow 2 (Npos p) in
      let q := N.div num den in
      let r := N.modulo num den in
      match N.compare (2 * r) den with
      | Lt => q
      | Gt => (q + 1)%N
      | Eq => if N.even q then q else (q + 1)%N
      end
  end.

(** Digits in groups of three from the right, separated by commas. *)
Fixpoint group3 (n : nat) (rev_digits : str) : str :=
  match rev_digits with
  | [] => []
  | c :: s' =>
      match n with
      | O => c :: group3 2 s'
      | S n' =>
          match s' with
          | [] => [c]
          | _ => match n' with
                 | O => c :: ","%char :: group3 0 s'
                 | S _ => c :: group3 n' s'
                 end
          end
      end
  end.

Definition thousands (digits : str) : str := rev (group3 3 (rev digits)).

Definition pad_left (n : nat) (s : str) : str :=
  repeat "0"%char (n - List.length s) ++ s.

(** [format(x, ',.<d>f')]. *)
Definition format_f (d : nat) (f : spec_float) : str :=
  let body (r : N) :=
    let p := N.pow 10 (N.of_nat d) in
    thousands (str_of_N (N.div r p))
    ++ match d with
       | O => []
       | _ => "."%char :: pad_left d (str_of_N (N.modulo r p))
       end in
  match f with
  | S754_zero s => (if s then ["-"%char] else []) ++ body 0%N
  | S754_finite s m e => (if s then ["-"%char] else []) ++ body (scaled_round d m e)
  | S754_infinity s => (if s then ["-"%char] else []) ++ lit "inf"
  | S754_nan => lit "nan"
  end.

End Float.

Import Re.

(** ** The program *)

(** Code points of the accented letters in the source's literals. *)
Definition a_acute : ascii := ascii_of_N 225.
Definition o_acute : ascii := ascii_of_N 243.
Definition u_acute : ascii := ascii_of_N 250.

(** [COLOMBIAN_BANKS], a set literal of which only membership is used. *)
Definition COLOMBIAN_BANKS : list str :=
  [ lit "bancolombia"; lit "davivienda"; lit "bbva colombia";
    lit "banco de bogot" ++ [a_acute];
    lit "banco de occidente"; lit "banco popular"; lit "banco av villas";
    lit "banco caja social"; lit "bancoomeva"; lit "colpatria";
    lit "ita" ++ [u_acute] ].

Definition in_set (x : str) (s : list str) : bool := existsb (Py.eqb x) s.

(** *** The input document *)

(** An entry of [textAnnotations], [logoAnnotations] or
    [labelAnnotations]: a dictionary whose key [description] may be
    missing. *)
Record entry : Type := Entry { description : option str }.

(** The annotation dictionary; [None] is a missing key. *)
Record annotations_t : Type := Annotations {
  textAnnotations : option (list entry);
  logoAnnotations : option (list entry);
  labelAnnotations : option (list entry)
}.

(** The document read from the file: the key [responses], when present,
    next to the keys of the annotation dictionary itself. *)
Record document : Type := Document {
  responses : option (list annotations_t);
  top_level : annotations_t
}.

(** [e.get('description', '')]. *)
Definition get_description (e : entry) : str :=
  match description e with Some d => d | None => [] end.

Definition extract_text_from_annotations (annotations : annotations_t) : str :=
  match textAnnotations annotations with
  | Some (first :: _) => get_description first
  | _ => []
  end.

(** *** Amounts *)

(** The dictionary built for each amount. *)
Record amount_info : Type := AmountInfo {
  amount : spec_float;
  currency : str;
  formatted : str
}.

Definition period : ascii := "."%char.
Definition comma : ascii := ","%char.

(** [COP\s*(\d{1,3}(?:\.\d{3})*(?:,\d{2})?)] *)
Definition cop_pattern : regex :=
  seq [ word "COP"; star space;
        Grp 1 (seq [ times 1 3 digit;
                     star (Seq (chr ".") (exactly 3 digit));
                     opt (Seq (chr ",") (exactly 2 digit)) ]) ].

(** [USD\s*(\d{1,3}(?:,\d{3})*(?:\.\d{2})?)] *)
Definition usd_pattern : regex :=
  seq [ word "USD"; star space;
        Grp 1 (seq [ times 1 3 digit;
                     star (Seq (chr ",") (exactly 3 digit));
                     opt (Seq (chr ".") (exactly 2 digit)) ]) ].

Definition sep : regex := Sym [IChar period; IChar comma].

(** [\$\s*(\d{1,3}(?:[\.,]\d{3})*(?:[\.,]\d{2})?)] *)
Definition dollar_sign_pattern : regex :=
  seq [ chr "$"; star space;
        Grp 1 (seq [ times 1 3 digit;
                     star (Seq sep (exactly 3 digit));
                     opt (Seq sep (exactly 2 digit)) ]) ].

(** [(\d{1,3}(?:\.\d{3})+(?:,\d{2})?)] *)
Definition general_cop : regex :=
  Grp 1 (seq [ times 1 3 digit;
               plus (Seq (chr ".") (exactly 3 digit));
               opt (Seq (chr ",") (exactly 2 digit)) ]).

(** [any(bank.lower() in COLOMBIAN_BANKS for bank in banks)], false when
    [banks] is [None] or empty. *)
Definition is_colombian_bank (banks : option (list str)) : bool :=
  match banks with
  | Some bs => existsb (fun bank => in_set (lower bank) COLOMBIAN_BANKS) bs
  | None => false
  end.

(** One iteration of a [for match in ...: try: ... except ValueError:
    continue] loop: the candidate appended, if any. *)
Definition candidate (amount_str : str)
  (mk : spec_float -> amount_info) : list amount_info :=
  match Float.of_str amount_str with
  | Some a => [mk a]
  | None => []
  end.

(** The Colombian reading of a numeral. *)
Definition cop_amount_str (m : str) : str :=
  replace_char comma [period] (replace_char period [] m).

Definition swap_separators (s : str) : str :=
  replace_char "X"%char [period]
    (replace_char period [comma] (replace_char comma [ "X"%char ] s)).

(** Priority 1. *)
Definition cop_amounts (text : str) : list amount_info :=
  flat_map (fun m =>
    candidate (cop_amount_str m) (fun a =>
      AmountInfo a (lit "COP")
        (swap_separators (lit "COP " ++ Float.format_f 2 a))))
    (findall true cop_pattern text).

(** Priority 2. *)
Definition usd_amounts (text : str) : list amount_info :=
  flat_map (fun m =>
    candidate (replace_char comma [] m) (fun a =>
      AmountInfo a (lit "USD") (lit "USD " ++ Float.format_f 2 a)))
    (findall true usd_pattern text).

(** The text converted for a [$] numeral of a Colombian bank. *)
Definition dollar_amount_str (m : str) : str :=
  if (has_char period m && has_char comma m)%bool then cop_amount_str m
  else if has_char period m then
    if ((1 <=? count_char period m)
        && (List.length (last_segment period m) =? 3))%bool
    then replace_char period [] m
    else m
  else replace_char comma [period] m.

(** Priority 3. *)
Definition dollar_amounts (colombian : bool) (text : str) : list amount_info :=
  flat_map (fun m =>
    if colombian then
      candidate (dollar_amount_str m) (fun a =>
        AmountInfo a (lit "COP")
          (replace_char comma [period] (lit "$ " ++ Float.format_f 0 a)))
    else
      candidate (replace_char comma [] m) (fun a =>
        AmountInfo a (lit "USD") (lit "$" ++ Float.format_f 2 a)))
    (findall false dollar_sign_pattern text).

(** Priority 4. *)
Definition general_amounts (colombian : bool) (text : str) : list amount_info :=
  flat_map (fun m =>
    candidate (cop_amount_str m) (fun a =>
      AmountInfo a (if colombian then lit "COP" else lit "UNKNOWN") m))
    (findall false general_cop text).

Definition extract_amounts (text : str) (banks : option (list str))
  : list amount_info :=
  let colombian := is_colombian_bank banks in
  let amounts := [] in
  let amounts := amounts ++ cop_amounts text in
  let amounts := amounts ++ usd_amounts text in
  let amounts := amounts ++ dollar_amounts colombian text in
  match amounts with
  | [] => amounts ++ general_amounts colombian text
  | _ :: _ => amounts
  end.

(** *** Dates, references and account numbers *)

Definition slash : regex := chr "/".
Definition dash : regex := chr "-".

(** The three date patterns:
    [\d{1,2}/\d{1,2}/\d{2,4}], [\d{4}-\d{2}-\d{2}] and
    [(?:Jan|Feb|Mar|Apr|May|Jun|Jul|Aug|Sep|Oct|Nov|Dec)[a-z]* \d{1,2},? \d{4}]. *)
Definition date_patterns : list regex :=
  [ seq [ times 1 2 digit; slash; times 1 2 digit; slash; times 2 4 digit ];
    seq [ exactly 4 digit; dash; exactly 2 digit; dash; exactly 2 digit ];
    seq [ alt (map word [ "Jan"; "Feb"; "Mar"; "Apr"; "May"; "Jun";
                          "Jul"; "Aug"; "Sep"; "Oct"; "Nov"; "Dec" ]%string);
          star (Sym [range "a" "z"]); chr " "; times 1 2 digit;
          opt (chr ","); chr " "; exactly 4 digit ] ].

Definition extract_dates (text : str) : list str :=
  flat_map (fun pattern => findall true pattern text) date_patterns.

(** [(?:NO|NUMBER|#)?:?\s*], shared by the labelled patterns. *)
Definition label_tail : list regex :=
  [ opt (alt [ word "NO"; word "NUMBER"; chr "#" ]); opt (chr ":");
    star space ].

(** [(?:REF|REFERENCE|CONFIRMATION|TRANSACTION)\s*(?:NO|NUMBER|#)?:?\s*([A-Z0-9-]+)]
    and [\b[A-Z]{2,}\d{6,}\b]. *)
Definition reference_patterns : list regex :=
  [ seq ([ alt (map word [ "REF"; "REFERENCE"; "CONFIRMATION";
                           "TRANSACTION" ]%string);
           star space ] ++ label_tail ++
         [ Grp 1 (plus (Sym [range "A" "Z"; range "0" "9"; IChar "-"%char])) ]);
    seq [ WordB; at_least 2 (Sym [range "A" "Z"]); at_least 6 digit; WordB ] ].

Definition extract_reference_numbers (text : str) : list str :=
  flat_map (fun pattern => findall true pattern text) reference_patterns.

(** [\*{4,}(\d{4})] and
    [(?:ACCOUNT|ACCT)\s*(?:NO|NUMBER|#)?:?\s*\**(\d{4})]. *)
Definition account_patterns : list regex :=
  [ seq [ at_least 4 (chr "*"); Grp 1 (exactly 4 digit) ];
    seq ([ alt (map word [ "ACCOUNT"; "ACCT" ]%string); star space ]
         ++ label_tail ++
         [ star (chr "*"); Grp 1 (exactly 4 digit) ]) ].

Definition extract_account_numbers (text : str) : list str :=
  flat_map (fun pattern => findall true pattern text) account_patterns.

(** *** Merchant, card and time *)

(** [m.group(i)] where the group is used as a string at once.  The groups
    read this way take part in every match of their patterns (see
    [groups_read_are_set] below), so the value for an unset group is never
    used. *)
Definition group_str (i : nat) (m : match_obj) : str :=
  match group i m with Some w => w | None => [] end.

Definition merchant_name : regex :=
  Seq (Sym [range "A" "Z"]) (plus_lazy (Sym [range "A" "Z"; ISpace])).

(** [en\s+([A-Z][A-Z\s]+?)(?:\s+con\s+)], [at\s+([A-Z][A-Z\s]+?)(?:\s|$)]
    and [@\s*([A-Z][A-Z\s]+?)(?:\s|$)]. *)
Definition merchant_patterns : list regex :=
  [ seq [ word "en"; plus space; Grp 1 merchant_name;
          seq [ plus space; word "con"; plus space ] ];
    seq [ word "at"; plus space; Grp 1 merchant_name; Alt space Eol ];
    seq [ chr "@"; star space; Grp 1 merchant_name; Alt space Eol ] ].

(** The [for pattern in patterns] loop that returns at the first pattern
    with a match. *)
Fixpoint first_match (icase : bool) (patterns : list regex) (text : str)
  : option (regex * match_obj) :=
  match patterns with
  | [] => None
  | pattern :: patterns' =>
      match search icase pattern text with
      | Some m => Some (pattern, m)
      | None => first_match icase patterns' text
      end
  end.

Definition extract_merchant (text : str) : option str :=
  match first_match false merchant_patterns text with
  | Some (_, m) =>
      let merchant := strip (group_str 1 m) in
      Some (sub false (plus space) (lit " ") merchant)
  | None => None
  end.

Record card_info_t : Type := CardInfo { card_type : str; last4 : str }.

(** [(T\.Cred|T\.Deb|Tarjeta)\s*\*(\d{4})],
    [(Credit|Debit|Card)\s*\*(\d{4})] and [\*(\d{4})]. *)
Definition card_patterns : list regex :=
  [ seq [ Grp 1 (alt (map word [ "T.Cred"; "T.Deb"; "Tarjeta" ]%string));
          star space; chr "*"; Grp 2 (exactly 4 digit) ];
    seq [ Grp 1 (alt (map word [ "Credit"; "Debit"; "Card" ]%string));
          star space; chr "*"; Grp 2 (exactly 4 digit) ];
    seq [ chr "*"; Grp 1 (exactly 4 digit) ] ].

Definition extract_card_info (text : str) : option card_info_t :=
  match first_match true card_patterns text with
  | Some (pattern, m) =>
      if ngroups pattern =? 2 then
        let t := group_str 1 m in
        let t :=
          if (contains (lit "T.Cred") t || contains (lit "Tarjeta") t)%bool
          then lit "Credit Card"
          else if contains (lit "T.Deb") t then lit "Debit Card"
          else t in
        Some (CardInfo t (group_str 2 m))
      else Some (CardInfo (lit "Unknown") (group_str 1 m))
  | None => None
  end.

Definition hour_minute : list regex :=
  [ Grp 1 (Seq (opt (Sym [range "0" "2"])) digit); chr ":";
    Grp 2 (Seq (Sym [range "0" "5"]) digit) ].

(** [\b([0-2]?\d):([0-5]\d)\s*(AM|PM|am|pm)?\b] and
    [a\s+las\s+([0-2]?\d):([0-5]\d)]. *)
Definition time_patterns : list regex :=
  [ seq ([ WordB ] ++ hour_minute ++
         [ star space;
           opt (Grp 3 (alt (map word [ "AM"; "PM"; "am"; "pm" ]%string)));
           WordB ]);
    seq ([ chr "a"; plus space; word "las"; plus space ] ++ hour_minute) ].

Definition extract_time (text : str) : option str :=
  match first_match false time_patterns text with
  | Some (pattern, m) =>
      let hour := group_str 1 m in
      let minute := group_str 2 m in
      let meridiem :=
        if 3 <=? ngroups pattern then format_opt (group 3 m) else [] in
      Some (strip (hour ++ lit ":" ++ minute ++ lit " " ++ meridiem))
  | None => None
  end.

(** *** Transaction type *)

Definition any_keyword (keywords : list str) (text_lower : str) : bool :=
  existsb (fun keyword => contains keyword text_lower) keywords.

Definition detect_transaction_type (text : str) : str :=
  let text_lower := lower text in
  if any_keyword [lit "compraste"; lit "compra"; lit "purchase"] text_lower
  then lit "PURCHASE"
  else if any_keyword [lit "transferiste"; lit "transferencia";
                       lit "wire transfer"; lit "wire"] text_lower
  then lit "WIRE_TRANSFER"
  else if any_keyword [lit "retiraste"; lit "retiro"; lit "withdrawal";
                       lit "withdraw"; lit "atm"] text_lower
  then lit "WITHDRAWAL"
  else if any_keyword [lit "depositaste"; lit "dep" ++ o_acute :: lit "sito";
                       lit "deposit"; lit "deposited"] text_lower
  then lit "DEPOSIT"
  else if any_keyword [lit "pagaste"; lit "pago"; lit "payment"; lit "paid"]
                      text_lower
  then lit "PAYMENT"
  else if any_keyword [lit "ach"; lit "electronic transfer"] text_lower
  then lit "ACH_TRANSFER"
  else lit "UNKNOWN".

(** *** Banks *)

Definition common_banks : list str :=
  [ lit "Bancolombia"; lit "Davivienda"; lit "BBVA Colombia";
    lit "Banco de Bogot" ++ [a_acute];
    lit "Banco de Occidente"; lit "Banco Popular"; lit "Banco AV Villas";
    lit "Banco Caja Social"; lit "Bancoomeva"; lit "Colpatria";
    lit "Ita" ++ [u_acute];
    lit "Chase"; lit "Bank of America"; lit "Wells Fargo"; lit "Citibank";
    lit "Capital One"; lit "US Bank"; lit "PNC"; lit "TD Bank"; lit "Truist";
    lit "Fifth Third"; lit "Santander" ].

(** [list(set(banks))] lists the distinct elements of [banks] in the
    iteration order of a set of strings, which follows the strings' hashes
    and so is fixed within one run of the interpreter only.  A run is
    therefore given its order as a function [set_order] from the elements
    added to a listing of them; [iteration_order] says what every such
    function satisfies. *)
Definition iteration_order (set_order : list str -> list str) : Prop :=
  forall l, NoDup (set_order l) /\ forall x, In x (set_order l) <-> In x l.

(** *** The assembled record *)

Record transaction_t : Type := Transaction {
  raw_text : str;
  amounts : list amount_info;
  dates : list str;
  time : option str;
  merchant : option str;
  card_info : option card_info_t;
  reference_numbers : list str;
  account_numbers : list str;
  transaction_type : str;
  banks : list str;
  document_labels : list str
}.

(** *** Validation *)

Record validation_t : Type := Validation {
  is_valid : bool;
  warnings : list str;
  errors : list str
}.

Definition add_error (v : validation_t) (msg : str) : validation_t :=
  Validation (is_valid v) (warnings v) (errors v ++ [msg]).

Definition add_warning (v : validation_t) (msg : str) : validation_t :=
  Validation (is_valid v) (warnings v ++ [msg]) (errors v).

Definition set_valid (v : validation_t) (b : bool) : validation_t :=
  Validation b (warnings v) (errors v).

Definition is_empty {T : Type} (l : list T) : bool :=
  match l with [] => true | _ :: _ => false end.

Definition validate_transaction (transaction : transaction_t) : validation_t :=
  let validation := Validation true [] [] in
  let validation :=
    if is_empty (amounts transaction)
    then set_valid (add_error validation (lit "No monetary amounts detected"))
                   false
    else validation in
  let validation :=
    if is_empty (dates transaction)
    then add_warning validation (lit "No dates detected") else validation in
  let validation :=
    if Py.eqb (transaction_type transaction) (lit "UNKNOWN")
    then add_warning validation (lit "Could not determine transaction type")
    else validation in
  let validation :=
    if is_empty (reference_numbers transaction)
    then add_warning validation (lit "No reference numbers detected")
    else validation in
  let validation :=
    if 5 <? List.length (amounts transaction)
    then add_warning validation
           (lit "Multiple amounts detected ("
            ++ str_of_nat (List.length (amounts transaction)) ++ lit ")")
    else validation in
  let validation :=
    if negb (is_empty (errors validation))
    then set_valid validation false else validation in
  validation.

(** *** Bank detection and assembly *)

Section Run.

Variable set_order : list str -> list str.

Definition extract_bank_names (annotations : annotations_t) : list str :=
  let banks := [] in
  let banks :=
    match logoAnnotations annotations with
    | Some logos => banks ++ map get_description logos
    | None => banks
    end in
  let banks :=
    match textAnnotations annotations with
    | Some (first :: _) =>
        let text := get_description first in
        banks ++ filter (fun bank => contains (lower bank) (lower text))
                        common_banks
    | _ => banks
    end in
  set_order banks.

(** [parse_transaction] after the file is read and decoded. *)
Definition parse_transaction (data : document) : transaction_t :=
  let annotations :=
    match responses data with
    | Some (first :: _) => first
    | _ => top_level data
    end in
  let full_text := extract_text_from_annotations annotations in
  let banks := extract_bank_names annotations in
  Transaction
    full_text
    (extract_amounts full_text (Some banks))
    (extract_dates full_text)
    (extract_time full_text)
    (extract_merchant full_text)
    (extract_card_info full_text)
    (extract_reference_numbers full_text)
    (extract_account_numbers full_text)
    (detect_transaction_type full_text)
    banks
    (match labelAnnotations annotations with
     | Some labels => map get_description (firstn 5 labels)
     | None => []
     end).

(** The dictionary [main] serialises into the output file. *)
Definition output (data : document) : transaction_t * validation_t :=
  let transaction := parse_transaction data in
  (transaction, validate_transaction transaction).

End Run.

(** *** The output file *)

(** [s.replace(old, new)] for a non-empty [old]: the occurrences of [old]
    are replaced left to right, without overlap; [skip] counts the
    characters of the occurrence just replaced that are still ahead. *)
Fixpoint replace_from (old new : str) (skip : nat) (s : str) : str :=
  match s with
  | [] => []
  | c :: s' =>
      match skip with
      | S n => replace_from old new n s'
      | O =>
          if startswith old s
          then new ++ replace_from old new (pred (List.length old)) s'
          else c :: replace_from old new 0 s'
      end
  end.

Definition replace (old new s : str) : str := replace_from old new 0 s.

(** The path [main] writes the parsed data to. *)
Definition output_file (annotation_file : str) : str :=
  replace (lit ".json") (lit "_parsed.json") annotation_file.

(** ** What a match is *)

(** The matches of a pattern, as a relation between the state before and
    the state after; the matcher [run] explores them in priority order. *)
Module ReSpec.

Inductive Iter (R : mstate -> mstate -> Prop) : nat -> mstate -> mstate -> Prop :=
| Iter_O : forall st, Iter R 0 st st
| Iter_S : forall n a m b,
    R a m -> pos a < pos m -> Iter R n m b -> Iter R (S n) a b.

Definition within (n : nat) (hi : option nat) : Prop :=
  match hi with Some h => n <= h | None => True end.

Fixpoint Match (ic : bool) (r : regex) (a b : mstate) : Prop :=
  match r with
  | Eps => b = a
  | Sym items =>
      exists c s, rest a = c :: s /\ sym_match ic items c = true
                  /\ b = MState (S (pos a)) (Some c) s (caps a)
  | Seq r1 r2 => exists m, Match ic r1 a m /\ Match ic r2 m b
  | Alt r1 r2 => Match ic r1 a b \/ Match ic r2 a b
  | Rep _ lo hi r1 =>
      exists n, lo <= n /\ within n hi /\ Iter (Match ic r1) n a b
  | Grp i r1 =>
      exists m, Match ic r1 a m
                /\ b = MState (pos m) (prev m) (rest m)
                              ((i, consumed a m) :: caps m)
  | WordB => at_boundary a = true /\ b = a
  | Eol => at_eol a = true /\ b = a
  end.

(** Every character a pattern can consume satisfies [P]. *)
Fixpoint syms_sat (ic : bool) (P : ascii -> Prop) (r : regex) : Prop :=
  match r with
  | Sym items => forall c, sym_match ic items c = true -> P c
  | Seq r1 r2 | Alt r1 r2 => syms_sat ic P r1 /\ syms_sat ic P r2
  | Rep _ _ _ r1 | Grp _ r1 => syms_sat ic P r1
  | _ => True
  end.


(** [g] is the last factor of the sequence [r]. *)
Fixpoint ends_with (g r : regex) : Prop :=
  r = g \/ match r with Seq _ r2 => ends_with g r2 | _ => False end.

(** The record with its list of banks replaced. *)
Definition with_banks (b : list str) (t : transaction_t) : transaction_t :=
  Transaction (raw_text t) (amounts t) (dates t) (time t) (merchant t)
    (card_info t) (reference_numbers t) (account_numbers t)
    (transaction_type t) b (document_labels t).

(** Two iteration orders and a document that names two banks. *)
Definition order_first_seen (l : list str) : list str :=
  nodup (list_eq_dec ascii_dec) l.

Definition order_last_seen (l : list str) : list str :=
  rev (nodup (list_eq_dec ascii_dec) l).

Definition two_banks_document : document :=
  Document None
    (Annotations (Some [Entry (Some (lit "Bancolombia Davivienda"))])
                 None None).


(** Every match of [r] consumes a character that satisfies [P]. *)
Fixpoint needs (ic : bool) (P : ascii -> Prop) (r : regex) : Prop :=
  match r with
  | Sym items => forall c, sym_match ic items c = true -> P c
  | Seq r1 r2 => needs ic P r1 \/ needs ic P r2
  | Alt r1 r2 => needs ic P r1 /\ needs ic P r2
  | Rep _ lo _ r1 => 1 <= lo /\ needs ic P r1
  | Grp _ r1 => needs ic P r1
  | _ => False
  end.





(** The text after a numeral goes on with a separator and two digits, so
    that the numeral patterns read further. *)
Definition numeral_continues (post : str) : bool :=
  match post with
  | c1 :: c2 :: c3 :: _ =>
      ((Ascii.eqb c1 period || Ascii.eqb c1 comma)
       && is_digit c2 && is_digit c3)%bool
  | _ => false
  end.

(** The candidates named in the claims. *)
Definition cop_51558 : amount_info :=
  AmountInfo (S754_finite false 7086077563109376 (-37)) (lit "COP")
             (lit "COP 51.558,00").

Definition cop_200000 : amount_info :=
  AmountInfo (S754_finite false 6871947673600000 (-35)) (lit "COP")
             (lit "$ 200.000").

(** A text without digits. *)
Definition no_digit (s : str) : Prop := Forall (fun c => is_digit c <> true) s.

(** Group [i] takes part in every match of [r]. *)
Fixpoint sets (i : nat) (r : regex) : bool :=
  match r with
  | Grp j r1 => ((i =? j) || sets i r1)%bool
  | Seq r1 r2 => (sets i r1 || sets i r2)%bool
  | Alt r1 r2 => (sets i r1 && sets i r2)%bool
  | Rep _ lo _ r1 => ((1 <=? lo) && sets i r1)%bool
  | _ => false
  end.

(** The text [a] occurs in the text [t]. *)
Definition occurs_in (a t : str) : Prop :=
  exists pre post, t = pre ++ a ++ post.

(** The matcher is at a position of the text [t] and every group it
    holds occurs in [t]. *)
Definition inside (t : str) (st : mstate) : Prop :=
  (exists pre, t = pre ++ rest st)
  /\ forall i w, In (i, w) (caps st) -> occurs_in w t.

(** A float that is neither negative nor a NaN. *)
Definition nonneg_float (f : spec_float) : Prop :=
  match f with
  | S754_zero false | S754_infinity false | S754_finite false _ _ => True
  | _ => False
  end.

(** A sufficient test for [needs]: every match of [r] goes through a
    [\d]. *)
Fixpoint needs_digit_b (r : regex) : bool :=
  match r with
  | Sym items =>
      forallb (fun it => match it with IDigit => true | _ => false end) items
  | Seq r1 r2 => (needs_digit_b r1 || needs_digit_b r2)%bool
  | Alt r1 r2 => (needs_digit_b r1 && needs_digit_b r2)%bool
  | Rep _ lo _ r1 => ((1 <=? lo) && needs_digit_b r1)%bool
  | Grp _ r1 => needs_digit_b r1
  | _ => false
  end.

(** The texts of an hour and of a minute: one digit, or a digit from 0 to
    2 and a digit; a digit from 0 to 5 and a digit. *)
Definition hour_text (h : str) : Prop :=
  (exists d, h = [d] /\ is_digit d = true)
  \/ (exists c d, h = [c; d] /\ between 48 50 c = true /\ is_digit d = true).

Definition minute_text (m : str) : Prop :=
  exists c d, m = [c; d] /\ between 48 53 c = true /\ is_digit d = true.

(** The keywords of the six categories, in the order of the source. *)
Definition type_keywords : list str :=
  [ lit "compraste"; lit "compra"; lit "purchase";
    lit "transferiste"; lit "transferencia"; lit "wire transfer"; lit "wire";
    lit "retiraste"; lit "retiro"; lit "withdrawal"; lit "withdraw"; lit "atm";
    lit "depositaste"; lit "dep" ++ o_acute :: lit "sito"; lit "deposit";
    lit "deposited";
    lit "pagaste"; lit "pago"; lit "payment"; lit "paid";
    lit "ach"; lit "electronic transfer" ].

(** The [$] numerals that are discarded because their converted text is
    not a number: with a Colombian bank, those with two or more commas,
    and those without a comma, with two or more periods and a last group
    not of three characters; otherwise those with two or more periods. *)
Definition dollar_dropped (colombian : bool) (m : str) : bool :=
  if colombian then
    (2 <=? count_char comma m)
    || (negb (has_char comma m) && (2 <=? count_char period m)
        && negb (List.length (last_segment period m) =? 3))
  else 2 <=? count_char period m.

(** The words the card patterns look for. *)
Definition card_words : list str :=
  map lit ["T.Cred"; "T.Deb"; "Tarjeta"; "Credit"; "Debit"; "Card"]%string.

(** The number written by the digits of a numeral, its separators left
    out. *)
Fixpoint digits_from (m : str) (acc : N) : N :=
  match m with
  | [] => acc
  | c :: m' =>
      digits_from m' (if is_digit c then acc * 10 + (code c - 48) else acc)%N
  end.

Definition digits_of (m : str) : N := digits_from m 0.

(** The claim C2 on the candidates [cs] that one [$] numeral [m] with
    periods and no comma gives under a Colombian bank: with three
    characters after the last period, one COP candidate whose value is the
    whole number written by the digits; otherwise, with a single period,
    one COP candidate whose value has the digits after the period as
    decimals; otherwise none. *)
Definition periods_only_reading (m : str) (cs : list amount_info) : Prop :=
  if List.length (last_segment period m) =? 3 then
    exists c, cs = [c] /\ amount c = Float.of_decimal (digits_of m) 0
              /\ currency c = lit "COP"
  else if count_char period m =? 1 then
    exists c, cs = [c]
              /\ amount c = Float.of_decimal (digits_of m)
                              (List.length (last_segment period m))
              /\ currency c = lit "COP"
  else cs = [].

End ReSpec.

Import ReSpec.

(** * Properties *)

(** ** The matcher finds matches only *)

Section Soundness.

Variable ic : bool.
Variable A : Type.

Lemma rep_loop_sound (R : mstate -> mstate -> Prop)
  (body : mstate -> (mstate -> option A) -> option A)
  (g : bool) (lo : nat) (hi : option nat) (k : mstate -> option A) :
  (forall st k' a, body st k' = Some a -> exists m, R st m /\ k' m = Some a) ->
  forall fuel n st a,
    within n hi ->
    rep_loop body g lo hi k fuel n st = Some a ->
    exists j b, Iter R j st b /\ lo <= n + j /\ within (n + j) hi
                /\ k b = Some a.
Proof.
  intros Hbody.
  assert (Hstop : forall n st a, within n hi ->
            (if lo <=? n then k st else None) = Some a ->
            exists j b, Iter R j st b /\ lo <= n + j /\ within (n + j) hi
                        /\ k b = Some a).
  { intros n st a Hw H. destruct (lo <=? n) eqn:E; [|discriminate].
    apply Nat.leb_le in E. exists 0, st. rewrite Nat.add_0_r.
    repeat split; auto. constructor. }
  assert (Hmore : forall f,
            (forall n st a, within n hi ->
               rep_loop body g lo hi k f n st = Some a ->
               exists j b, Iter R j st b /\ lo <= n + j /\ within (n + j) hi
                           /\ k b = Some a) ->
            forall n st a,
            below n hi = true ->
            body st (fun st1 =>
              if pos st <? pos st1
              then rep_loop body g lo hi k f (S n) st1 else None) = Some a ->
            exists j b, Iter R j st b /\ lo <= n + j /\ within (n + j) hi
                        /\ k b = Some a).
  { intros f IH n st a E H.
    apply Hbody in H. destruct H as (m & HR & H).
    destruct (pos st <? pos m) eqn:Ep; [|discriminate].
    apply Nat.ltb_lt in Ep.
    apply IH in H.
    - destruct H as (j & b & Hi & Hlo & Hhi & Hk).
      exists (S j), b. rewrite Nat.add_succ_r. repeat split; auto.
      econstructor; eauto.
    - unfold below in E. unfold within. destruct hi; auto.
      apply Nat.ltb_lt in E. lia. }
  induction fuel as [|f IH]; intros n st a Hw H; simpl in H;
    destruct (below n hi) eqn:Eb; eauto.
  destruct g.
  - destruct (body st _) eqn:E.
    + inversion H; subst. eapply Hmore; eauto.
    + eauto.
  - destruct (if lo <=? n then k st else None) eqn:E.
    + inversion H; subst. eauto.
    + eapply Hmore; eauto.
Qed.

Lemma run_sound (r : regex) :
  forall st (k : mstate -> option A) a,
    run ic r st k = Some a ->
    exists st', Match ic r st st' /\ k st' = Some a.
Proof.
  induction r as [|items|r1 IH1 r2 IH2|r1 IH1 r2 IH2|g lo hi r1 IH1|i r1 IH1| |];
    intros st k a H; cbn [run] in H.
  - exists st. split; [reflexivity|assumption].
  - destruct (rest st) as [|c s] eqn:Er; [discriminate|].
    destruct (sym_match ic items c) eqn:Es; [|discriminate].
    eexists. split; [|exact H]. simpl. exists c, s. auto.
  - apply IH1 in H. destruct H as (m & Hm & H).
    apply IH2 in H. destruct H as (b & Hb & H).
    exists b. split; [|exact H]. simpl. eauto.
  - destruct (run ic r1 st k) eqn:E.
    + inversion H; subst. apply IH1 in E. destruct E as (b & Hb & E).
      exists b. simpl. auto.
    + apply IH2 in H. destruct H as (b & Hb & H). exists b. simpl. auto.
  - eapply rep_loop_sound with (R := Match ic r1) in H.
    + destruct H as (j & b & Hi & Hlo & Hhi & Hk).
      exists b. split; [|exact Hk]. simpl. exists j. auto.
    + intros; eapply IH1; eauto.
    + destruct hi; simpl; auto. lia.
  - apply IH1 in H. destruct H as (m & Hm & H).
    eexists. split; [|exact H]. simpl. eauto.
  - destruct (at_boundary st) eqn:E; [|discriminate].
    exists st. simpl. auto.
  - destruct (at_eol st) eqn:E; [|discriminate].
    exists st. simpl. auto.
Qed.

End Soundness.

(** ** The text a match consumes *)

Lemma syms_sat_weaken (ic : bool) (P Q : ascii -> Prop) (r : regex) :
  (forall c, P c -> Q c) -> syms_sat ic P r -> syms_sat ic Q r.
Proof.
  intros HPQ. induction r; simpl; intuition auto.
Qed.

Lemma Iter_word (R : mstate -> mstate -> Prop) (P : ascii -> Prop) :
  (forall a b, R a b ->
     exists w, rest a = w ++ rest b /\ pos b = pos a + List.length w
               /\ Forall P w) ->
  forall n a b, Iter R n a b ->
    exists w, rest a = w ++ rest b /\ pos b = pos a + List.length w
              /\ Forall P w.
Proof.
  intros HR n a b H. induction H as [st|n a m b Ham Hlt Hmb IH].
  - exists []. simpl. auto.
  - destruct (HR _ _ Ham) as (w1 & E1 & P1 & F1).
    destruct IH as (w2 & E2 & P2 & F2).
    exists (w1 ++ w2). rewrite length_app, <- app_assoc, <- E2.
    repeat split; auto; try lia. apply Forall_app; auto.
Qed.

(** A match consumes a prefix of the remaining text, advances the position
    by its length, and consumes only characters its sets admit. *)
Lemma Match_word (ic : bool) (P : ascii -> Prop) (r : regex) :
  syms_sat ic P r ->
  forall a b, Match ic r a b ->
    exists w, rest a = w ++ rest b /\ pos b = pos a + List.length w
              /\ Forall P w.
Proof.
  induction r as [|items|r1 IH1 r2 IH2|r1 IH1 r2 IH2|g lo hi r1 IH1|i r1 IH1| |];
    simpl; intros Hs a b H.
  - subst. exists []. simpl. auto.
  - destruct H as (c & s & Er & Em & ->). exists [c]. simpl.
    repeat split; auto; lia.
  - destruct Hs as [Hs1 Hs2]. destruct H as (m & H1 & H2).
    destruct (IH1 Hs1 _ _ H1) as (w1 & E1 & P1 & F1).
    destruct (IH2 Hs2 _ _ H2) as (w2 & E2 & P2 & F2).
    exists (w1 ++ w2). rewrite length_app, <- app_assoc, <- E2.
    repeat split; auto; try lia. apply Forall_app; auto.
  - destruct Hs as [Hs1 Hs2]. destruct H as [H|H]; eauto.
  - destruct H as (n & _ & _ & H).
    eapply Iter_word; [|exact H]. intros; eapply IH1; eauto.
  - destruct H as (m & H & ->). simpl. eauto.
  - destruct H as [_ ->]. exists []. simpl. auto.
  - destruct H as [_ ->]. exists []. simpl. auto.
Qed.

Lemma syms_sat_True (ic : bool) (r : regex) : syms_sat ic (fun _ => True) r.
Proof. induction r; simpl; auto. Qed.

Lemma Match_span (ic : bool) (r : regex) (a b : mstate) :
  Match ic r a b ->
  exists w, rest a = w ++ rest b /\ pos b = pos a + List.length w.
Proof.
  intros H.
  destruct (Match_word ic _ r (syms_sat_True ic r) a b H) as (w & E & Hp & _).
  eauto.
Qed.

Lemma firstn_length_app (T : Type) (w s : list T) :
  firstn (List.length w) (w ++ s) = w.
Proof.
  rewrite firstn_app, Nat.sub_diag, firstn_all. simpl. apply app_nil_r.
Qed.

(** What a group captures is the text its body consumed. *)
Lemma Match_consumed (ic : bool) (P : ascii -> Prop) (r : regex) (a b : mstate) :
  syms_sat ic P r -> Match ic r a b ->
  rest a = consumed a b ++ rest b /\ Forall P (consumed a b)
  /\ pos b = pos a + List.length (consumed a b).
Proof.
  intros Hs H. destruct (Match_word ic P r Hs a b H) as (w & E & Hp & F).
  unfold consumed. rewrite Hp, E.
  replace (pos a + List.length w - pos a) with (List.length w) by lia.
  rewrite firstn_length_app. auto.
Qed.

Lemma sym_digit (ic : bool) (c : ascii) : sym_match ic [IDigit] c = is_digit c.
Proof. simpl. apply orb_false_r. Qed.

(** ** The matcher misses no match *)

Section Completeness.

Variable ic : bool.
Variable A : Type.

Lemma rep_loop_complete (r1 : regex)
  (g : bool) (lo : nat) (hi : option nat) (k : mstate -> option A) :
  (forall st m (k' : mstate -> option A),
     Match ic r1 st m -> k' m <> None -> run ic r1 st k' <> None) ->
  forall j a b, Iter (Match ic r1) j a b ->
  forall fuel n,
    List.length (rest a) < fuel -> lo <= n + j -> within (n + j) hi ->
    k b <> None ->
    rep_loop (run ic r1) g lo hi k fuel n a <> None.
Proof.
  intros Hbody j a b H.
  induction H as [st|j a m b Ham Hlt Hmb IH]; intros fuel n Hfuel Hlo Hhi Hk.
  - rewrite Nat.add_0_r in Hlo, Hhi.
    assert (Hstop : (if lo <=? n then k st else None) <> None).
    { replace (lo <=? n) with true by (symmetry; apply Nat.leb_le; lia).
      exact Hk. }
    destruct fuel as [|f]; simpl; destruct (below n hi); auto.
    destruct g.
    + destruct (run ic r1 st _); [discriminate|exact Hstop].
    + destruct (if lo <=? n then k st else None); [discriminate|].
      contradiction.
  - destruct fuel as [|f]; [lia|].
    assert (Hb : below n hi = true).
    { unfold below. unfold within in Hhi. destruct hi; auto.
      apply Nat.ltb_lt. lia. }
    destruct (Match_span ic r1 a m Ham) as (w & Ew & Hp).
    assert (Hm : List.length (rest m) < f).
    { rewrite Ew, length_app in Hfuel. lia. }
    assert (Hmore :
      run ic r1 a (fun st1 =>
        if pos a <? pos st1
        then rep_loop (run ic r1) g lo hi k f (S n) st1 else None) <> None).
    { apply (Hbody a m); [exact Ham|].
      replace (pos a <? pos m) with true by (symmetry; apply Nat.ltb_lt; lia).
      apply IH; auto; rewrite Nat.add_succ_l, <- Nat.add_succ_r; assumption. }
    simpl. rewrite Hb. destruct g.
    + destruct (run ic r1 a _); [discriminate|contradiction].
    + destruct (if lo <=? n then k a else None); [discriminate|exact Hmore].
Qed.

(** Whenever the pattern has a match after which the rest succeeds, the
    matcher answers. *)
Lemma run_complete (r : regex) :
  forall st st' (k : mstate -> option A),
    Match ic r st st' -> k st' <> None -> run ic r st k <> None.
Proof.
  induction r as [|items|r1 IH1 r2 IH2|r1 IH1 r2 IH2|g lo hi r1 IH1|i r1 IH1| |];
    intros st st' k H Hk; cbn [run]; simpl in H.
  - subst. exact Hk.
  - destruct H as (c & s & -> & -> & ->). exact Hk.
  - destruct H as (m & H1 & H2). eapply IH1; eauto.
  - destruct (run ic r1 st k) eqn:E; [discriminate|].
    destruct H as [H|H]; [|eauto].
    exfalso. exact (IH1 _ _ _ H Hk E).
  - destruct H as (n & Hlo & Hhi & H).
    eapply rep_loop_complete; eauto.
  - destruct H as (m & H & ->). eapply IH1; eauto.
  - destruct H as [-> ->]. exact Hk.
  - destruct H as [-> ->]. exact Hk.
Qed.

End Completeness.

(** A position has a match exactly when the matcher reports one there. *)
Lemma match_here_iff (ic : bool) (r : regex) (p : option ascii) (s : str) :
  (exists m, match_here ic r p s = Some m)
  <-> exists st, Match ic r (MState 0 p s []) st.
Proof.
  split.
  - intros (m & H). unfold match_here in H. apply run_sound in H.
    destruct H as (st & HM & _). eauto.
  - intros (st & HM). unfold match_here.
    destruct (run ic r (MState 0 p s [])
                (fun st0 => Some (MatchObj s (pos st0) (caps st0)))) eqn:E;
      [eauto|].
    exfalso. revert E. eapply run_complete; eauto. discriminate.
Qed.

(** ** Matches reported by [search] and [finditer] *)

Lemma match_here_sound (ic : bool) (r : regex) (p : option ascii) (s : str)
  (m : match_obj) :
  match_here ic r p s = Some m ->
  exists st, Match ic r (MState 0 p s []) st
             /\ m = MatchObj s (pos st) (caps st).
Proof.
  unfold match_here. intros H. apply run_sound in H.
  destruct H as (st & HM & E). inversion E. eauto.
Qed.

Lemma search_from_sound (ic : bool) (r : regex) (s : str) :
  forall p m, search_from ic r p s = Some m ->
    exists p' s', match_here ic r p' s' = Some m.
Proof.
  induction s as [|c s IH]; intros p m H; simpl in H.
  - destruct (match_here ic r p []) eqn:E; [|discriminate].
    inversion H; subst. eauto.
  - destruct (match_here ic r p (c :: s)) eqn:E.
    + inversion H; subst. eauto.
    + eauto.
Qed.

Lemma finditer_from_sound (ic : bool) (r : regex) (s : str) :
  forall skip p m, In m (finditer_from ic r skip p s) ->
    exists p' s', match_here ic r p' s' = Some m.
Proof.
  induction s as [|c s IH]; intros skip p m H; simpl in H.
  - destruct skip; [|contradiction].
    destruct (match_here ic r p []) eqn:E; [|contradiction].
    destruct H as [->|[]]. eauto.
  - destruct skip as [|n]; [|eauto].
    destruct (match_here ic r p (c :: s)) eqn:E; [|eauto].
    destruct H as [->|H]; eauto.
Qed.

Lemma first_match_sound (ic : bool) (patterns : list regex) (text : str)
  (pattern : regex) (m : match_obj) :
  first_match ic patterns text = Some (pattern, m) ->
  In pattern patterns /\ exists p s, match_here ic pattern p s = Some m.
Proof.
  induction patterns as [|r rs IH]; simpl; [discriminate|].
  destruct (search ic r text) eqn:E.
  - intros H. inversion H; subst. split; auto.
    eapply search_from_sound; eauto.
  - intros H. apply IH in H. tauto.
Qed.

(** ** Groups at the end of a pattern *)

Lemma Match_ends_with (ic : bool) (g r : regex) :
  ends_with g r ->
  forall a b, Match ic r a b -> exists m, Match ic g m b.
Proof.
  induction r; simpl; intros [E|H] a b HM;
    try (subst g; eauto); try contradiction.
  destruct HM as (m & _ & H2). eauto.
Qed.

Lemma Iter_Sym_pos (ic : bool) (items : list item) (n : nat) (a b : mstate) :
  Iter (Match ic (Sym items)) n a b -> pos b = pos a + n.
Proof.
  induction 1 as [st|n a m b Ham Hlt Hmb IH]; [lia|].
  simpl in Ham. destruct Ham as (c & s & _ & _ & ->). simpl in *. lia.
Qed.

(** A group [(\d{n})] holds [n] digits. *)
Lemma Match_digits_group (ic : bool) (i n : nat) (a b : mstate) :
  Match ic (Grp i (exactly n digit)) a b ->
  exists w, lookup i (caps b) = Some w /\ List.length w = n
            /\ Forall (fun c => is_digit c = true) w.
Proof.
  intros (m & H & ->).
  assert (Hs : syms_sat ic (fun c => is_digit c = true) (exactly n digit)).
  { simpl. intros c Hc. rewrite orb_false_r in Hc. exact Hc. }
  destruct (Match_consumed _ _ _ _ _ Hs H) as (E & F & Hp).
  exists (consumed a m). simpl. rewrite Nat.eqb_refl. repeat split; auto.
  destruct H as (j & Hlo & Hhi & Hi).
  apply Iter_Sym_pos in Hi. simpl in Hhi. lia.
Qed.

Lemma findall_item_group (r : regex) (m : match_obj) (n : nat) :
  ngroups r = S n -> findall_item r m = group_str 1 m.
Proof. unfold findall_item, group_str. intros ->. reflexivity. Qed.

Lemma findall_In (ic : bool) (r : regex) (text a : str) :
  In a (findall ic r text) ->
  exists p s st, Match ic r (MState 0 p s []) st
                 /\ a = findall_item r (MatchObj s (pos st) (caps st)).
Proof.
  unfold findall, finditer. intros H. apply in_map_iff in H.
  destruct H as (m & <- & H). apply finditer_from_sound in H.
  destruct H as (p & s & H). apply match_here_sound in H.
  destruct H as (st & HM & ->). eauto.
Qed.

(** ** Account numbers *)

Lemma account_patterns_end (pattern : regex) :
  In pattern account_patterns ->
  ends_with (Grp 1 (exactly 4 digit)) pattern /\ ngroups pattern = 1.
Proof.
  intros [<-|[<-|[]]]; split; try reflexivity; simpl; tauto.
Qed.

(** C8: every string the account-number extractor returns consists of
    exactly four digits, however many digits follow the mask or the label
    in the text. *)
Theorem account_numbers_four_digits (text a : str) :
  In a (extract_account_numbers text) ->
  List.length a = 4 /\ Forall (fun c => is_digit c = true) a.
Proof.
  unfold extract_account_numbers. intros H. apply in_flat_map in H.
  destruct H as (pattern & Hp & H).
  apply account_patterns_end in Hp. destruct Hp as [He Hn].
  apply findall_In in H. destruct H as (p & s & st & HM & ->).
  rewrite (findall_item_group _ _ _ Hn).
  destruct (Match_ends_with _ _ _ He _ _ HM) as (m & Hg).
  apply Match_digits_group in Hg. destruct Hg as (w & Hl & Hlen & Hd).
  unfold group_str, group. simpl. rewrite Hl. auto.
Qed.

Lemma account_numbers_four_digits_witness :
  In (lit "1234") (extract_account_numbers (lit "Account: ****12345678"))
  /\ List.length (lit "1234") = 4
  /\ Forall (fun c => is_digit c = true) (lit "1234").
Proof.
  assert (H : In (lit "1234")
                 (extract_account_numbers (lit "Account: ****12345678"))).
  { vm_compute. left. reflexivity. }
  split; [exact H|].
  exact (account_numbers_four_digits (lit "Account: ****12345678")
           (lit "1234") H).
Defined.

(** ** Validation *)

Lemma is_empty_nil (T : Type) (l : list T) : is_empty l = true <-> l = [].
Proof. destruct l; simpl; split; congruence. Qed.

(** The warnings never touch [is_valid] or [errors]. *)
Lemma validate_errors (t : transaction_t) :
  errors (validate_transaction t)
  = if is_empty (amounts t) then [lit "No monetary amounts detected"] else [].
Proof.
  unfold validate_transaction.
  destruct (is_empty (amounts t)), (is_empty (dates t)),
    (Py.eqb (transaction_type t) (lit "UNKNOWN")),
    (is_empty (reference_numbers t)), (5 <? List.length (amounts t));
    reflexivity.
Qed.

Lemma validate_is_valid (t : transaction_t) :
  is_valid (validate_transaction t) = negb (is_empty (amounts t)).
Proof.
  unfold validate_transaction.
  destruct (is_empty (amounts t)), (is_empty (dates t)),
    (Py.eqb (transaction_type t) (lit "UNKNOWN")),
    (is_empty (reference_numbers t)), (5 <? List.length (amounts t));
    reflexivity.
Qed.

(** C4: the validator answers [is_valid = false] exactly when [errors] is
    not empty, which is exactly when the record has no amounts; [errors]
    is then the message "No monetary amounts detected", and a record with
    amounts is valid whatever warnings are emitted. *)
Theorem validator_invalid_iff_no_amounts (t : transaction_t) :
  let v := validate_transaction t in
  (is_valid v = false <-> errors v <> [])
  /\ (errors v <> [] <-> amounts t = [])
  /\ errors v
     = (if is_empty (amounts t)
        then [lit "No monetary amounts detected"] else [])
  /\ is_valid v = negb (is_empty (amounts t)).
Proof.
  cbv zeta. rewrite validate_errors, validate_is_valid.
  destruct (amounts t) as [|a l]; simpl; repeat split;
    try congruence; try discriminate; intros H; try reflexivity;
    exfalso; auto.
Qed.

(** ** The regional-bank flag *)

Lemma Py_eqb_eq (a b : str) : Py.eqb a b = true <-> a = b.
Proof.
  unfold Py.eqb. destruct (list_eq_dec ascii_dec a b); split; congruence.
Qed.

Lemma in_set_In (x : str) (s : list str) : in_set x s = true <-> In x s.
Proof.
  unfold in_set. rewrite existsb_exists. split.
  - intros (y & Hy & E). apply Py_eqb_eq in E. subst. exact Hy.
  - intros H. exists x. split; [exact H|]. apply Py_eqb_eq. reflexivity.
Qed.

(** C6: the flag is set exactly when some detected name, lower-cased,
    equals an entry of the registry.  A name that only contains an entry
    ("Bancolombia S.A.") or differs from it by more than case ("Banco de
    Bogota" without the accent) does not set it; a name that differs by
    case only does. *)
Theorem regional_flag_iff_exact_lowercase_member (banks : option (list str)) :
  (is_colombian_bank banks = true
   <-> exists names name,
         banks = Some names /\ In name names
         /\ In (lower name) COLOMBIAN_BANKS)
  /\ is_colombian_bank (Some [lit "Bancolombia S.A."]) = false
  /\ is_colombian_bank (Some [lit "Banco de Bogota"]) = false
  /\ is_colombian_bank (Some [lit "Chase"; lit "BANCOLOMBIA"]) = true.
Proof.
  split; [|repeat split; reflexivity].
  unfold is_colombian_bank. destruct banks as [names|].
  - rewrite existsb_exists. split.
    + intros (name & Hin & H). apply in_set_In in H. eauto.
    + intros (names' & name & E & Hin & H). inversion E; subst.
      exists name. split; [exact Hin|]. apply in_set_In. exact H.
  - split; [discriminate|]. intros (names & name & E & _). discriminate.
Qed.

(** ** Transaction type *)

(** C9: classification tests substrings of the lower-cased text, not
    words: a text whose lower-cased form contains "atm" and none of the
    purchase and wire-transfer keywords is a withdrawal. *)
Theorem atm_substring_is_withdrawal (text : str) :
  contains (lit "atm") (lower text) = true ->
  (forall keyword,
     In keyword [lit "compraste"; lit "compra"; lit "purchase";
                 lit "transferiste"; lit "transferencia";
                 lit "wire transfer"; lit "wire"] ->
     contains keyword (lower text) = false) ->
  detect_transaction_type text = lit "WITHDRAWAL".
Proof.
  intros Hatm Hnone. unfold detect_transaction_type, any_keyword.
  cbn [existsb].
  rewrite !Hnone by (simpl; tauto).
  rewrite Hatm, !orb_true_r. reflexivity.
Qed.

Lemma atm_substring_is_withdrawal_witness :
  detect_transaction_type (lit "Lovely atmosphere tonight") = lit "WITHDRAWAL".
Proof.
  apply atm_substring_is_withdrawal.
  - vm_compute. reflexivity.
  - intros keyword H. simpl in H.
    repeat (destruct H as [<-|H]; [vm_compute; reflexivity|]).
    contradiction.
Defined.

(** ** The cascade *)

Lemma candidate_In (amount_str : str) (mk : spec_float -> amount_info)
  (c : amount_info) :
  In c (candidate amount_str mk) -> exists a, c = mk a.
Proof.
  unfold candidate. destruct (Float.of_str amount_str); simpl; intros H;
    [destruct H as [<-|[]]; eauto|contradiction].
Qed.

(** The display text of a priority 1-3 candidate begins with the currency
    marker. *)
Lemma prefixed_formatted (colombian : bool) (text : str) (c : amount_info) :
  In c (cop_amounts text ++ usd_amounts text ++ dollar_amounts colombian text) ->
  exists x s, formatted c = x :: s /\ is_digit x = false.
Proof.
  intros H. apply in_app_or in H. destruct H as [H|H];
    [|apply in_app_or in H; destruct H as [H|H]].
  - apply in_flat_map in H. destruct H as (m & _ & H).
    apply candidate_In in H. destruct H as (a & ->).
    exists "C"%char. eexists. split; reflexivity.
  - apply in_flat_map in H. destruct H as (m & _ & H).
    apply candidate_In in H. destruct H as (a & ->).
    exists "U"%char. eexists. split; reflexivity.
  - apply in_flat_map in H. destruct H as (m & _ & H).
    destruct colombian; apply candidate_In in H; destruct H as (a & ->);
      exists "$"%char; eexists; split; reflexivity.
Qed.

(** The display text of a fallback candidate is the numeral matched, which
    begins with a digit. *)
Lemma general_formatted (colombian : bool) (text : str) (c : amount_info) :
  In c (general_amounts colombian text) ->
  exists x s, formatted c = x :: s /\ is_digit x = true.
Proof.
  intros H. apply in_flat_map in H. destruct H as (m & Hm & H).
  apply candidate_In in H. destruct H as (a & ->). cbn [formatted].
  apply findall_In in Hm. destruct Hm as (p & s & st & HM & ->).
  unfold findall_item, general_cop. cbn [ngroups seq Nat.add].
  unfold general_cop in HM. destruct HM as (m' & HM & ->).
  unfold group. cbn [m_caps caps lookup Nat.eqb].
  destruct HM as (m1 & H1 & H2).
  destruct (Match_span false _ _ _ H2) as (w2 & E2 & P2).
  destruct H1 as (n & Hlo & _ & Hi).
  destruct Hi as [st0|n a0 x b0 Hax Hlt Hxb]; [lia|].
  destruct Hax as (d & r & Ea & Hd & ->).
  assert (Hs : syms_sat false (fun _ => True) digit) by (simpl; auto).
  destruct (Iter_word (Match false digit) (fun _ => True)
              (fun u v Huv => Match_word false _ digit Hs u v Huv)
              _ _ _ Hxb) as (w1 & E1 & P1 & _).
  cbn [rest pos] in *. rewrite sym_digit in Hd.
  unfold consumed. cbn [pos rest]. rewrite Ea, P2, P1.
  replace (S (pos a0) + List.length w1 + List.length w2 - pos a0)
    with (S (List.length w1 + List.length w2)) by lia.
  cbn [firstn]. eauto.
Qed.

(** C1: priorities 1 to 3 always run and their candidates are kept in
    order; the fallback runs exactly when they found nothing, and is then
    the whole output.  When they found something the output holds their
    candidates only: no candidate of the fallback rule is in it. *)
Theorem fallback_iff_no_prefixed_candidate (text : str)
  (banks : option (list str)) :
  let colombian := is_colombian_bank banks in
  let prefixed :=
    cop_amounts text ++ usd_amounts text ++ dollar_amounts colombian text in
  extract_amounts text banks
  = (if is_empty prefixed then general_amounts colombian text else prefixed)
  /\ (prefixed <> [] ->
      extract_amounts text banks = prefixed
      /\ forall c, In c (general_amounts colombian text) ->
                   ~ In c (extract_amounts text banks))
  /\ (prefixed = [] ->
      extract_amounts text banks = general_amounts colombian text).
Proof.
  cbv zeta.
  assert (E : extract_amounts text banks
              = if is_empty (cop_amounts text ++ usd_amounts text
                             ++ dollar_amounts (is_colombian_bank banks) text)
                then general_amounts (is_colombian_bank banks) text
                else cop_amounts text ++ usd_amounts text
                     ++ dollar_amounts (is_colombian_bank banks) text).
  { unfold extract_amounts. cbn [app]. rewrite <- app_assoc.
    destruct (cop_amounts text ++ usd_amounts text
              ++ dollar_amounts (is_colombian_bank banks) text);
      reflexivity. }
  split; [exact E|]. rewrite E. split.
  - intros Hne.
    destruct (cop_amounts text ++ usd_amounts text
              ++ dollar_amounts (is_colombian_bank banks) text)
      as [|a l] eqn:Ep; [congruence|].
    cbn [is_empty]. split; [reflexivity|].
    intros c Hg Hc. rewrite <- Ep in Hc.
    apply general_formatted in Hg. apply prefixed_formatted in Hc.
    destruct Hg as (x & s & Ex & Hx), Hc as (y & s' & Ey & Hy).
    congruence.
  - intros ->. reflexivity.
Qed.

Lemma fallback_iff_no_prefixed_candidate_witness :
  extract_amounts (lit "COP 100,00 y 200.000") None
  = cop_amounts (lit "COP 100,00 y 200.000")
  /\ extract_amounts (lit "total 200.000") None
     = general_amounts false (lit "total 200.000").
Proof.
  split.
  - refine (eq_trans
      (proj1 (proj1 (proj2 (fallback_iff_no_prefixed_candidate
                              (lit "COP 100,00 y 200.000") None)) _)) _).
    + vm_compute. discriminate.
    + vm_compute. reflexivity.
  - apply (proj2 (proj2 (fallback_iff_no_prefixed_candidate
                           (lit "total 200.000") None))).
    vm_compute. reflexivity.
Defined.

(** ** Time *)

(** C3: on a text with "a las 20:33" the first pattern matches "20:33"
    with its optional AM/PM group unset; the pattern has three groups, so
    the unset group is formatted, and the result is "20:33 None". *)
Theorem extract_time_unset_meridiem :
  extract_time (lit "a las 20:33") = Some (lit "20:33 None")
  /\ extract_time
       (lit "Compraste COP 51.558,00 en EXITO SABANETA con T.Cred *9095 a las 20:33")
     = Some (lit "20:33 None").
Proof. split; vm_compute; reflexivity. Qed.

(** Where AM/PM is present the first pattern gives the intended text, and
    so does the second pattern, which has two groups only, when the first
    finds nothing. *)
Example extract_time_with_meridiem :
  extract_time (lit "8:33 PM") = Some (lit "8:33 PM")
  /\ extract_time (lit "a las 20:334") = Some (lit "20:33").
Proof. split; vm_compute; reflexivity. Qed.

(** ** Two runs on one document *)

Lemma order_first_seen_ok : iteration_order order_first_seen.
Proof.
  intros l. unfold order_first_seen. split.
  - apply NoDup_nodup.
  - intros x. apply nodup_In.
Qed.

Lemma order_last_seen_ok : iteration_order order_last_seen.
Proof.
  intros l. unfold order_last_seen. split.
  - apply NoDup_rev, NoDup_nodup.
  - intros x. rewrite <- in_rev. apply nodup_In.
Qed.

(** The claim C7 as stated fails: the two orders give different outputs
    on a document that names two banks. *)
Lemma output_differs_with_set_order :
  iteration_order order_first_seen /\ iteration_order order_last_seen
  /\ output order_first_seen two_banks_document
     <> output order_last_seen two_banks_document.
Proof.
  split; [apply order_first_seen_ok|]. split; [apply order_last_seen_ok|].
  intros H. apply (f_equal (fun o => banks (fst o))) in H.
  vm_compute in H. discriminate.
Qed.

Lemma existsb_same_elements (T : Type) (f : T -> bool) (l1 l2 : list T) :
  (forall x, In x l1 <-> In x l2) -> existsb f l1 = existsb f l2.
Proof.
  intros H. apply eq_true_iff_eq. rewrite !existsb_exists.
  split; intros (x & Hx & Hf); exists x; split; auto; apply H; auto.
Qed.

Lemma extract_amounts_same_elements (text : str) (b1 b2 : list str) :
  (forall x, In x b1 <-> In x b2) ->
  extract_amounts text (Some b1) = extract_amounts text (Some b2).
Proof.
  intros H. unfold extract_amounts, is_colombian_bank.
  rewrite (existsb_same_elements _ _ _ _ H). reflexivity.
Qed.

Lemma extract_bank_names_same_elements (o1 o2 : list str -> list str)
  (annotations : annotations_t) :
  iteration_order o1 -> iteration_order o2 ->
  NoDup (extract_bank_names o1 annotations)
  /\ NoDup (extract_bank_names o2 annotations)
  /\ forall x, In x (extract_bank_names o1 annotations)
               <-> In x (extract_bank_names o2 annotations).
Proof.
  intros H1 H2. unfold extract_bank_names.
  set (raw := match textAnnotations annotations with
              | Some (first :: _) => _
              | _ => _
              end).
  destruct (H1 raw) as [N1 I1], (H2 raw) as [N2 I2].
  repeat split; auto; intros Hx; [apply I2, I1|apply I1, I2]; exact Hx.
Qed.

Lemma parse_transaction_up_to_banks (o1 o2 : list str -> list str)
  (data : document) :
  iteration_order o1 -> iteration_order o2 ->
  parse_transaction o2 data
  = with_banks (banks (parse_transaction o2 data)) (parse_transaction o1 data).
Proof.
  intros H1 H2. unfold parse_transaction, with_banks. simpl.
  set (annotations := match responses data with
                      | Some (first :: _) => first
                      | _ => top_level data
                      end).
  destruct (extract_bank_names_same_elements o1 o2 annotations H1 H2)
    as (_ & _ & Hsame).
  rewrite (extract_amounts_same_elements _ _ _ Hsame). reflexivity.
Qed.

Lemma validate_with_banks (b : list str) (t : transaction_t) :
  validate_transaction (with_banks b t) = validate_transaction t.
Proof. reflexivity. Qed.

Lemma Permutation_short_eq (T : Type) (l1 l2 : list T) :
  Permutation l1 l2 -> List.length l1 <= 1 -> l1 = l2.
Proof.
  intros HP Hlen. destruct l1 as [|x [|y l1]]; simpl in Hlen; try lia.
  - apply Permutation_nil in HP. congruence.
  - apply Permutation_length_1_inv in HP. congruence.
Qed.

(** C7, amended: two runs on one document agree on the validation result
    and on every field of the record except the order of the list of
    banks, which holds the same names in both; their outputs are equal
    when both list the banks in the same order, as they must when at most
    one bank is detected. *)
Theorem output_equal_up_to_bank_order (o1 o2 : list str -> list str)
  (data : document) :
  iteration_order o1 -> iteration_order o2 ->
  let t1 := fst (output o1 data) in
  let t2 := fst (output o2 data) in
  snd (output o1 data) = snd (output o2 data)
  /\ t2 = with_banks (banks t2) t1
  /\ Permutation (banks t1) (banks t2)
  /\ (banks t1 = banks t2 -> output o1 data = output o2 data)
  /\ (List.length (banks t1) <= 1 -> output o1 data = output o2 data).
Proof.
  intros H1 H2. cbv zeta. unfold output. cbn [fst snd].
  pose proof (parse_transaction_up_to_banks o1 o2 data H1 H2) as E.
  assert (EV : validate_transaction (parse_transaction o1 data)
               = validate_transaction (parse_transaction o2 data)).
  { rewrite E, validate_with_banks. reflexivity. }
  assert (HP : Permutation (banks (parse_transaction o1 data))
                           (banks (parse_transaction o2 data))).
  { unfold parse_transaction. cbn [banks].
    match goal with
    | |- Permutation (extract_bank_names _ ?a) _ =>
        destruct (extract_bank_names_same_elements o1 o2 a H1 H2)
          as (N1 & N2 & Hsame)
    end.
    apply NoDup_Permutation; assumption. }
  assert (Hsame : banks (parse_transaction o1 data)
                  = banks (parse_transaction o2 data) ->
                  (parse_transaction o1 data,
                   validate_transaction (parse_transaction o1 data))
                  = (parse_transaction o2 data,
                     validate_transaction (parse_transaction o2 data))).
  { intros Eb. rewrite <- EV. f_equal. rewrite E, <- Eb.
    destruct (parse_transaction o1 data). reflexivity. }
  repeat split; auto.
  intros Hlen. apply Hsame. apply Permutation_short_eq; assumption.
Qed.

Lemma output_equal_up_to_bank_order_witness :
  Permutation
    (banks (fst (output order_first_seen two_banks_document)))
    (banks (fst (output order_last_seen two_banks_document))).
Proof.
  exact (proj1 (proj2 (proj2
    (output_equal_up_to_bank_order order_first_seen order_last_seen
       two_banks_document order_first_seen_ok order_last_seen_ok)))).
Defined.

(** ** Groups inside a pattern *)

Lemma Iter_caps (R : mstate -> mstate -> Prop) :
  (forall a b, R a b -> caps b = caps a) ->
  forall n a b, Iter R n a b -> caps b = caps a.
Proof.
  intros HR n a b H. induction H as [st|n a m b Ham Hlt Hmb IH]; auto.
  rewrite IH. auto.
Qed.

Lemma Match_caps_plain (ic : bool) (r : regex) :
  ngroups r = 0 -> forall a b, Match ic r a b -> caps b = caps a.
Proof.
  induction r as [|items|r1 IH1 r2 IH2|r1 IH1 r2 IH2|g lo hi r1 IH1|i r1 IH1| |];
    simpl; intros Hn a b H.
  - subst. reflexivity.
  - destruct H as (c & s & _ & _ & ->). reflexivity.
  - destruct H as (m & H1 & H2).
    rewrite (IH2 ltac:(lia) _ _ H2). apply IH1; [lia|exact H1].
  - destruct H as [H|H]; [apply IH1|apply IH2]; auto; lia.
  - destruct H as (n & _ & _ & H). eapply Iter_caps; [|exact H].
    intros; apply IH1; auto.
  - discriminate.
  - destruct H as [_ ->]. reflexivity.
  - destruct H as [_ ->]. reflexivity.
Qed.


Lemma Match_needs (ic : bool) (P : ascii -> Prop) (r : regex) :
  needs ic P r -> forall a b, Match ic r a b -> Exists P (rest a).
Proof.
  induction r as [|items|r1 IH1 r2 IH2|r1 IH1 r2 IH2|g lo hi r1 IH1|i r1 IH1| |];
    simpl; try contradiction; intros Hn a b H.
  - destruct H as (c & s & -> & Hc & _). constructor. auto.
  - destruct H as (m & H1 & H2). destruct Hn as [Hn|Hn]; [eauto|].
    destruct (Match_span ic r1 a m H1) as (w & -> & _).
    apply Exists_app. right. eauto.
  - destruct Hn as [Hn1 Hn2]. destruct H as [H|H]; eauto.
  - destruct Hn as [Hlo Hn]. destruct H as (n & Hle & _ & H).
    destruct H as [st|n a m b Ham Hlt Hmb]; [lia|eauto].
  - destruct H as (m & H & _). eauto.
Qed.

Lemma search_from_suffix (ic : bool) (r : regex) (s : str) :
  forall p m, search_from ic r p s = Some m ->
    exists p' pre s', s = pre ++ s' /\ match_here ic r p' s' = Some m.
Proof.
  induction s as [|c s IH]; intros p m H; simpl in H.
  - destruct (match_here ic r p []) eqn:E; [|discriminate].
    inversion H; subst. exists p, [], []. auto.
  - destruct (match_here ic r p (c :: s)) eqn:E.
    + inversion H; subst. exists p, [], (c :: s). auto.
    + apply IH in H. destruct H as (p' & pre & s' & -> & H).
      exists p', (c :: pre), s'. auto.
Qed.

(** A pattern that needs a character the text does not have is not
    found. *)
Lemma search_needs (ic : bool) (P : ascii -> Prop) (r : regex) (text : str) :
  needs ic P r -> Forall (fun c => ~ P c) text -> search ic r text = None.
Proof.
  intros Hn Hf. unfold search.
  destruct (search_from ic r None text) as [m|] eqn:E; [|reflexivity].
  exfalso. apply search_from_suffix in E.
  destruct E as (p' & pre & s' & -> & E).
  apply match_here_sound in E. destruct E as (st & HM & _).
  apply (Match_needs ic P r Hn) in HM. simpl in HM.
  apply Forall_app in Hf. destruct Hf as [_ Hf].
  apply Exists_exists in HM. destruct HM as (c & Hc & HP).
  rewrite Forall_forall in Hf. exact (Hf c Hc HP).
Qed.

(** ** Groups that always take part *)

Lemma Iter_caps_grow (R : mstate -> mstate -> Prop) (i : nat) :
  (forall a b, R a b -> lookup i (caps a) <> None -> lookup i (caps b) <> None) ->
  forall n a b, Iter R n a b ->
    lookup i (caps a) <> None -> lookup i (caps b) <> None.
Proof.
  intros HR n a b H. induction H as [st|n a m b Ham Hlt Hmb IH]; eauto.
Qed.

(** A capture is never lost during a match. *)
Lemma Match_caps_grow (ic : bool) (i : nat) (r : regex) :
  forall a b, Match ic r a b ->
    lookup i (caps a) <> None -> lookup i (caps b) <> None.
Proof.
  induction r as [|items|r1 IH1 r2 IH2|r1 IH1 r2 IH2|g lo hi r1 IH1|j r1 IH1| |];
    simpl; intros a b H Ha.
  - subst. exact Ha.
  - destruct H as (c & s & _ & _ & ->). exact Ha.
  - destruct H as (m & H1 & H2). eauto.
  - destruct H as [H|H]; eauto.
  - destruct H as (n & _ & _ & H). eapply Iter_caps_grow; eauto.
  - destruct H as (m & H & ->). cbn [caps lookup].
    destruct (i =? j); [discriminate|]. eauto.
  - destruct H as [_ ->]. exact Ha.
  - destruct H as [_ ->]. exact Ha.
Qed.

Lemma Match_sets (ic : bool) (i : nat) (r : regex) :
  sets i r = true ->
  forall a b, Match ic r a b -> lookup i (caps b) <> None.
Proof.
  induction r as [|items|r1 IH1 r2 IH2|r1 IH1 r2 IH2|g lo hi r1 IH1|j r1 IH1| |];
    simpl; try discriminate; intros Hs a b H.
  - destruct H as (m & H1 & H2). apply orb_true_iff in Hs.
    destruct Hs as [Hs|Hs]; [|eauto].
    eapply Match_caps_grow; eauto.
  - apply andb_true_iff in Hs. destruct Hs as [Hs1 Hs2].
    destruct H as [H|H]; eauto.
  - apply andb_true_iff in Hs. destruct Hs as [Hlo Hs].
    assert (1 <= lo) by (destruct lo; [discriminate|lia]).
    destruct H as (n & Hle & _ & H).
    destruct H as [st|n a m b Ham Hlt Hmb]; [lia|].
    eapply Iter_caps_grow; [|exact Hmb|eauto].
    intros x y Hxy. apply (Match_caps_grow ic i r1 x y Hxy).
  - destruct H as (m & H & ->). cbn [caps lookup].
    destruct (i =? j) eqn:E; [discriminate|]. simpl in Hs. eauto.
Qed.

(** The groups read with [group_str] are set by every match of their
    patterns: group 1 of the merchant patterns, groups 1 and 2 of the time
    patterns, and every group of the card patterns. *)
Lemma first_match_group_set (ic : bool) (patterns : list regex) (text : str)
  (pattern : regex) (m : match_obj) (i : nat) :
  first_match ic patterns text = Some (pattern, m) ->
  sets i pattern = true -> group i m <> None.
Proof.
  intros H Hs. apply first_match_sound in H. destruct H as (_ & p & s & H).
  apply match_here_sound in H. destruct H as (st & HM & ->).
  unfold group. cbn [m_caps]. eapply Match_sets; eauto.
Qed.

Lemma groups_read_are_set :
  Forall (fun r => sets 1 r = true) merchant_patterns
  /\ Forall (fun r => sets 1 r = true /\ sets 2 r = true) time_patterns
  /\ Forall (fun r => sets 1 r = true
                      /\ (ngroups r = 2 -> sets 2 r = true)) card_patterns.
Proof.
  repeat split; repeat constructor; try discriminate.
Qed.

(** ** White space: [strip] and [re.sub(r'\s+', ' ', _)] *)












(** ** Merchant *)










(** ** Reaching a match in [finditer] *)

(** Matches that start before [Y] and end before it leave the scan at the
    start of [Y]. *)
Lemma finditer_from_reaches (ic : bool) (r : regex) (Y : str) :
  forall pre skip p,
    skip <= List.length pre ->
    (forall pre1 pre2 p' m,
       pre = pre1 ++ pre2 -> pre2 <> [] ->
       match_here ic r p' (pre2 ++ Y) = Some m ->
       m_len m <= List.length pre2) ->
    exists l p',
      finditer_from ic r skip p (pre ++ Y) = l ++ finditer_from ic r 0 p' Y.
Proof.
  induction pre as [|c pre IH]; intros skip p Hskip Hno.
  - simpl in Hskip. assert (skip = 0) by lia. subst. exists [], p. reflexivity.
  - assert (Hno' : forall pre1 pre2 p' m,
              pre = pre1 ++ pre2 -> pre2 <> [] ->
              match_here ic r p' (pre2 ++ Y) = Some m ->
              m_len m <= List.length pre2).
    { intros pre1 pre2 p' m E. apply (Hno (c :: pre1)). simpl. congruence. }
    cbn [app finditer_from]. destruct skip as [|n].
    + destruct (match_here ic r p (c :: pre ++ Y)) as [m|] eqn:E.
      * assert (Hm : m_len m <= List.length (c :: pre)).
        { apply (Hno [] (c :: pre) p m); auto. discriminate. }
        simpl in Hm.
        destruct (IH (pred (m_len m)) (Some c) ltac:(lia) Hno') as (l & p' & El).
        exists (m :: l), p'. rewrite El. reflexivity.
      * apply IH; auto. lia.
    + apply IH; auto. simpl in Hskip. lia.
Qed.

Lemma Match_head_tail (ic : bool) (P : ascii -> Prop) (items : list item)
  (r : regex) (a b : mstate) :
  syms_sat ic P r -> Match ic (Seq (Sym items) r) a b ->
  exists c w, rest a = c :: w ++ rest b /\ pos b = pos a + S (List.length w)
              /\ Forall P w.
Proof.
  intros Hs (m & (c & s & Ea & _ & ->) & H).
  destruct (Match_word ic P r Hs _ _ H) as (w & Ew & Hp & F).
  cbn [rest pos] in Ew, Hp. exists c, w. rewrite Ea, Ew. repeat split; auto.
  lia.
Qed.

(** A word whose characters after the first all satisfy [P] cannot reach
    over a later character that does not. *)
Lemma no_overlap_word (P : ascii -> Prop) (c y : ascii) (w R pre2 Y' : str) :
  c :: w ++ R = pre2 ++ y :: Y' -> pre2 <> [] -> Forall P w -> ~ P y ->
  S (List.length w) <= List.length pre2.
Proof.
  intros E Hne F Hy. destruct pre2 as [|x pre2']; [congruence|].
  simpl in *. inversion E as [[Ex E']]. clear E.
  destruct (Nat.le_gt_cases (List.length w) (List.length pre2')) as [|Hlt];
    [lia|].
  exfalso. apply Hy.
  assert (H1 : nth_error (w ++ R) (List.length pre2') = Some y).
  { rewrite E', nth_error_app2, Nat.sub_diag by lia. reflexivity. }
  rewrite nth_error_app1 in H1 by lia.
  apply nth_error_In in H1. rewrite Forall_forall in F. auto.
Qed.

(** A pattern that begins with one character and then consumes only
    characters other than [y] is found at any occurrence of a text that
    begins with [y] and matches. *)
Lemma finditer_contains (ic : bool) (P : ascii -> Prop) (items : list item)
  (r pat : regex) (y : ascii) (Y' pre : str) (m0 : match_obj) :
  (forall a b, Match ic pat a b -> Match ic (Seq (Sym items) r) a b) ->
  syms_sat ic P r -> ~ P y ->
  (forall p', match_here ic pat p' (y :: Y') = Some m0) ->
  In m0 (finditer ic pat (pre ++ y :: Y')).
Proof.
  intros Hpat Hs Hy Hm. unfold finditer.
  destruct (finditer_from_reaches ic pat (y :: Y') pre 0 None) as (l & p' & E).
  - lia.
  - intros pre1 pre2 p m _ Hne H.
    apply match_here_sound in H. destruct H as (st & HM & ->).
    apply Hpat in HM.
    destruct (Match_head_tail ic P items r _ _ Hs HM) as (c & w & Ea & Hp & F).
    cbn [rest pos m_len] in *. rewrite Hp.
    apply (no_overlap_word P c y w (rest st) pre2 Y'); auto.
  - rewrite E. apply in_or_app. right. cbn [finditer_from]. rewrite Hm.
    left. reflexivity.
Qed.

Lemma Match_Seq_assoc (ic : bool) (r1 r2 r3 : regex) (a b : mstate) :
  Match ic (Seq (Seq r1 r2) r3) a b -> Match ic (Seq r1 (Seq r2 r3)) a b.
Proof.
  intros (m & (m1 & H1 & H2) & H3). simpl. eauto.
Qed.

Lemma In_prefixed_extract_amounts (text : str) (banks : option (list str))
  (c : amount_info) :
  In c (cop_amounts text ++ usd_amounts text
        ++ dollar_amounts (is_colombian_bank banks) text) ->
  In c (extract_amounts text banks).
Proof.
  intros H. unfold extract_amounts. cbn [app]. rewrite <- app_assoc.
  destruct (cop_amounts text ++ usd_amounts text
            ++ dollar_amounts (is_colombian_bank banks) text);
    [contradiction|exact H].
Qed.

Lemma sym_sep (c : ascii) :
  sym_match false [IChar period; IChar comma] c
  = (Ascii.eqb c period || Ascii.eqb c comma)%bool.
Proof. simpl. rewrite orb_false_r. reflexivity. Qed.

(** ** Stretches of text without a match *)

Lemma Iter_needs_word (R : mstate -> mstate -> Prop) (P : ascii -> Prop) :
  (forall a b, R a b -> exists w, rest a = w ++ rest b /\ Exists P w) ->
  (forall a b, R a b -> exists w, rest a = w ++ rest b) ->
  forall n a b, 1 <= n -> Iter R n a b ->
    exists w, rest a = w ++ rest b /\ Exists P w.
Proof.
  intros HR Hspan n a b Hn H.
  destruct H as [st|n a m b Ham Hlt Hmb]; [lia|].
  destruct (HR _ _ Ham) as (w1 & E1 & X1).
  assert (H2 : exists w2, rest m = w2 ++ rest b).
  { clear - Hspan Hmb. induction Hmb as [st|n a m b Ham Hlt Hmb IH].
    - exists []. reflexivity.
    - destruct (Hspan _ _ Ham) as (w1 & E1). destruct IH as (w2 & E2).
      exists (w1 ++ w2). rewrite <- app_assoc, <- E2. exact E1. }
  destruct H2 as (w2 & E2). exists (w1 ++ w2).
  rewrite <- app_assoc, <- E2. split; [exact E1|].
  apply Exists_app. auto.
Qed.

(** The text a match consumes holds a character the pattern needs. *)
Lemma Match_needs_word (ic : bool) (P : ascii -> Prop) (r : regex) :
  needs ic P r -> forall a b, Match ic r a b ->
    exists w, rest a = w ++ rest b /\ Exists P w.
Proof.
  induction r as [|items|r1 IH1 r2 IH2|r1 IH1 r2 IH2|g lo hi r1 IH1|i r1 IH1| |];
    simpl; try contradiction; intros Hn a b H.
  - destruct H as (c & s & Ea & Hc & ->). exists [c]. split; [exact Ea|].
    constructor. auto.
  - destruct H as (m & H1 & H2).
    destruct (Match_span ic r1 a m H1) as (w1 & E1 & _).
    destruct (Match_span ic r2 m b H2) as (w2 & E2 & _).
    destruct Hn as [Hn|Hn].
    + destruct (IH1 Hn _ _ H1) as (w & E & X).
      exists (w ++ w2). rewrite <- app_assoc, <- E2. split; [exact E|].
      apply Exists_app. auto.
    + destruct (IH2 Hn _ _ H2) as (w & E & X).
      exists (w1 ++ w). rewrite <- app_assoc, <- E. split; [exact E1|].
      apply Exists_app. auto.
  - destruct Hn as [Hn1 Hn2]. destruct H as [H|H]; eauto.
  - destruct Hn as [Hlo Hn]. destruct H as (n & Hle & _ & H).
    apply (Iter_needs_word (Match ic r1) P) with (n := n); auto; [|lia].
    intros x y Hxy. destruct (Match_span ic r1 x y Hxy) as (w & E & _). eauto.
  - destruct H as (m & H & ->). simpl. eauto.
Qed.

Lemma app_prefix_le (T : Type) (l1 r1 l2 r2 : list T) :
  l1 ++ r1 = l2 ++ r2 -> List.length l1 <= List.length l2 ->
  exists t, l2 = l1 ++ t.
Proof.
  revert l2. induction l1 as [|x l1 IH]; intros l2 E Hlen.
  - exists l2. reflexivity.
  - destruct l2 as [|y l2]; [simpl in Hlen; lia|].
    simpl in E. inversion E; subst.
    destruct (IH l2 H1 ltac:(simpl in Hlen; lia)) as (t & ->).
    exists t. reflexivity.
Qed.

(** Where the text holds no character the pattern needs, nothing is
    found. *)
Lemma finditer_from_none (ic : bool) (Q : ascii -> Prop) (pat : regex) :
  needs ic Q pat ->
  forall s p, Forall (fun c => ~ Q c) s -> finditer_from ic pat 0 p s = [].
Proof.
  intros Hn.
  assert (Hnone : forall s p, Forall (fun c => ~ Q c) s ->
                              match_here ic pat p s = None).
  { intros s p Hs. destruct (match_here ic pat p s) as [m|] eqn:E; auto.
    exfalso. apply match_here_sound in E. destruct E as (st & HM & _).
    apply (Match_needs ic Q pat Hn) in HM. simpl in HM.
    apply Exists_exists in HM. destruct HM as (c & Hc & HQ).
    rewrite Forall_forall in Hs. exact (Hs c Hc HQ). }
  induction s as [|c s IH]; intros p Hs; cbn [finditer_from];
    rewrite (Hnone _ _ Hs); [reflexivity|].
  apply IH. inversion Hs; assumption.
Qed.

(** Before an occurrence of a text that begins with [y], in a stretch
    without a character the pattern needs, nothing is found either. *)
Lemma finditer_from_skip_region (ic : bool) (P Q : ascii -> Prop)
  (items : list item) (r pat : regex) (y : ascii) (Y' : str) :
  (forall a b, Match ic pat a b -> Match ic (Seq (Sym items) r) a b) ->
  syms_sat ic P r -> ~ P y -> needs ic Q pat ->
  forall pre p, Forall (fun c => ~ Q c) pre ->
    exists p',
      finditer_from ic pat 0 p (pre ++ y :: Y')
      = finditer_from ic pat 0 p' (y :: Y').
Proof.
  intros Hpat Hs Hy Hn.
  induction pre as [|c pre IH]; intros p Hpre.
  - exists p. reflexivity.
  - cbn [app finditer_from].
    destruct (match_here ic pat p (c :: pre ++ y :: Y')) as [m|] eqn:E.
    + exfalso. apply match_here_sound in E. destruct E as (st & HM & _).
      destruct (Match_needs_word ic Q pat Hn _ _ HM) as (wq & Eq & Xq).
      apply Hpat in HM.
      destruct (Match_head_tail ic P items r _ _ Hs HM) as (c' & w & Ea & Hp & F).
      cbn [rest] in Eq, Ea.
      assert (Hlen : S (List.length w) <= List.length (c :: pre)).
      { apply (no_overlap_word P c' y w (rest st) (c :: pre) Y'); auto.
        discriminate. }
      assert (Ew : wq = c' :: w).
      { apply (app_inv_tail (rest st)). rewrite <- Eq. exact Ea. }
      subst wq.
      destruct (app_prefix_le _ (c' :: w) (rest st) (c :: pre) (y :: Y'))
        as (t & Et); [simpl; symmetry; exact Ea|exact Hlen|].
      rewrite Et in Hpre. apply Forall_app in Hpre. destruct Hpre as [Hpre _].
      apply Exists_exists in Xq. destruct Xq as (x & Hx & HQ).
      rewrite Forall_forall in Hpre. exact (Hpre x Hx HQ).
    + apply IH. inversion Hpre; assumption.
Qed.

(** ** An explicit COP amount *)

Lemma cop_51558_value :
  Float.value (amount cop_51558) = Some (51558 # 1)
  /\ Float.of_str (lit "51558.00") = Some (amount cop_51558).
Proof. split; vm_compute; reflexivity. Qed.

Lemma cop_pattern_head (a b : mstate) :
  Match true cop_pattern a b ->
  Match true
    (Seq (Sym [IChar "C"%char])
         (Seq (Seq (Sym [IChar "O"%char]) (Seq (Sym [IChar "P"%char]) Eps))
              (Seq (star space)
                   (Grp 1 (seq [ times 1 3 digit;
                                 star (Seq (chr ".") (exactly 3 digit));
                                 opt (Seq (chr ",") (exactly 2 digit)) ])))))
    a b.
Proof. intros H. apply Match_Seq_assoc. exact H. Qed.

Ltac other_char :=
  let c := fresh "c" in
  let H := fresh "H" in
  let E := fresh "E" in
  intros c H E; subst c; vm_compute in H; discriminate H.

Lemma cop_pattern_tail_not_C :
  syms_sat true (fun c => c <> "C"%char)
    (Seq (Seq (Sym [IChar "O"%char]) (Seq (Sym [IChar "P"%char]) Eps))
         (Seq (star space)
              (Grp 1 (seq [ times 1 3 digit;
                            star (Seq (chr ".") (exactly 3 digit));
                            opt (Seq (chr ",") (exactly 2 digit)) ])))).
Proof. cbn [syms_sat seq star times exactly opt chr lit list_ascii_of_string
              space digit]. repeat split; other_char. Qed.

Lemma cop_match_here (p : option ascii) (post : str) :
  match_here true cop_pattern p (lit "COP 51.558,00" ++ post)
  = Some (MatchObj (lit "COP 51.558,00" ++ post) 13 [(1, lit "51.558,00")]).
Proof. vm_compute. reflexivity. Qed.

Lemma cop_amounts_51558 (pre post : str) :
  In cop_51558 (cop_amounts (pre ++ lit "COP 51.558,00" ++ post)).
Proof.
  unfold cop_amounts. apply in_flat_map. exists (lit "51.558,00"). split.
  - unfold findall. apply in_map_iff.
    exists (MatchObj (lit "COP 51.558,00" ++ post) 13 [(1, lit "51.558,00")]).
    split; [reflexivity|].
    change (lit "COP 51.558,00" ++ post)
      with ("C"%char :: (lit "OP 51.558,00" ++ post)).
    eapply finditer_contains with (P := fun c => c <> "C"%char).
    + exact cop_pattern_head.
    + exact cop_pattern_tail_not_C.
    + intros H. apply H. reflexivity.
    + intros p'. apply (cop_match_here p' post).
  - vm_compute. left. reflexivity.
Qed.

Lemma numeral_needs_digit (ic : bool) (r1 r2 : regex) :
  needs ic (fun c => is_digit c = true) (Grp 1 (seq [times 1 3 digit; r1; r2])).
Proof.
  cbn [seq needs times]. left. split; [lia|].
  intros c Hc. rewrite sym_digit in Hc. exact Hc.
Qed.

Lemma cop_needs_digit : needs true (fun c => is_digit c = true) cop_pattern.
Proof. cbn [cop_pattern seq needs]. right. right. apply numeral_needs_digit. Qed.

Lemma usd_needs_digit : needs true (fun c => is_digit c = true) usd_pattern.
Proof. cbn [usd_pattern seq needs]. right. right. apply numeral_needs_digit. Qed.

Lemma dollar_needs_digit :
  needs false (fun c => is_digit c = true) dollar_sign_pattern.
Proof.
  cbn [dollar_sign_pattern seq needs]. right. right.
  apply numeral_needs_digit.
Qed.

Lemma usd_pattern_head (a b : mstate) :
  Match true usd_pattern a b ->
  Match true
    (Seq (Sym [IChar "U"%char])
         (Seq (Seq (Sym [IChar "S"%char]) (Seq (Sym [IChar "D"%char]) Eps))
              (Seq (star space)
                   (Grp 1 (seq [ times 1 3 digit;
                                 star (Seq (chr ",") (exactly 3 digit));
                                 opt (Seq (chr ".") (exactly 2 digit)) ])))))
    a b.
Proof. intros H. apply Match_Seq_assoc. exact H. Qed.

Lemma usd_pattern_tail_not_C :
  syms_sat true (fun c => c <> "C"%char)
    (Seq (Seq (Sym [IChar "S"%char]) (Seq (Sym [IChar "D"%char]) Eps))
         (Seq (star space)
              (Grp 1 (seq [ times 1 3 digit;
                            star (Seq (chr ",") (exactly 3 digit));
                            opt (Seq (chr ".") (exactly 2 digit)) ])))).
Proof. cbn [syms_sat seq star times exactly opt chr lit list_ascii_of_string
              space digit]. repeat split; other_char. Qed.

Lemma dollar_pattern_tail_not_C :
  syms_sat false (fun c => c <> "C"%char)
    (Seq (star space)
         (Grp 1 (seq [ times 1 3 digit;
                       star (Seq sep (exactly 3 digit));
                       opt (Seq sep (exactly 2 digit)) ]))).
Proof. cbn [syms_sat seq star times exactly opt sep space digit].
       repeat split; other_char. Qed.

(** The scan over "COP 51.558,00" itself. *)
Lemma finditer_from_found (ic : bool) (r : regex) (p : option ascii)
  (c : ascii) (s : str) (m : match_obj) :
  match_here ic r p (c :: s) = Some m ->
  finditer_from ic r 0 p (c :: s)
  = m :: finditer_from ic r (pred (m_len m)) (Some c) s.
Proof. intros H. cbn [finditer_from]. rewrite H. reflexivity. Qed.

Lemma finditer_from_not_found (ic : bool) (r : regex) (p : option ascii)
  (c : ascii) (s : str) :
  match_here ic r p (c :: s) = None ->
  finditer_from ic r 0 p (c :: s) = finditer_from ic r 0 (Some c) s.
Proof. intros H. cbn [finditer_from]. rewrite H. reflexivity. Qed.

Lemma finditer_cop_at (p : option ascii) (post : str) :
  finditer_from true cop_pattern 0 p (lit "COP 51.558,00" ++ post)
  = MatchObj (lit "COP 51.558,00" ++ post) 13 [(1, lit "51.558,00")]
    :: finditer_from true cop_pattern 0 (Some "0"%char) post.
Proof.
  exact (finditer_from_found true cop_pattern p "C"%char
           (lit "OP 51.558,00" ++ post) _ (cop_match_here p post)).
Qed.

Ltac scan_on :=
  match goal with
  | |- finditer_from ?ic ?r 0 ?p (?c :: ?s) = _ =>
      rewrite (finditer_from_not_found ic r p c s) by (vm_compute; reflexivity)
  end.

Lemma finditer_usd_at (p : option ascii) (post : str) :
  finditer_from true usd_pattern 0 p (lit "COP 51.558,00" ++ post)
  = finditer_from true usd_pattern 0 (Some "0"%char) post.
Proof.
  cbn [lit list_ascii_of_string app]. do 13 scan_on. reflexivity.
Qed.

Lemma finditer_dollar_at (p : option ascii) (post : str) :
  finditer_from false dollar_sign_pattern 0 p (lit "COP 51.558,00" ++ post)
  = finditer_from false dollar_sign_pattern 0 (Some "0"%char) post.
Proof.
  cbn [lit list_ascii_of_string app]. do 13 scan_on. reflexivity.
Qed.

Lemma finditer_skip_to_cop (ic : bool) (items : list item) (r pat : regex)
  (pre post : str) :
  (forall a b, Match ic pat a b -> Match ic (Seq (Sym items) r) a b) ->
  syms_sat ic (fun c => c <> "C"%char) r ->
  needs ic (fun c => is_digit c = true) pat ->
  no_digit pre ->
  exists p',
    finditer ic pat (pre ++ lit "COP 51.558,00" ++ post)
    = finditer_from ic pat 0 p' (lit "COP 51.558,00" ++ post).
Proof.
  intros Hpat Hs Hn Hpre. unfold finditer.
  exact (finditer_from_skip_region ic (fun c => c <> "C"%char)
           (fun c => is_digit c = true) items r pat "C"%char
           (lit "OP 51.558,00" ++ post) Hpat Hs (fun H => H eq_refl) Hn
           pre None Hpre).
Qed.

Lemma cop_marker_alone (pre post : str) (banks : option (list str)) :
  no_digit pre -> no_digit post ->
  extract_amounts (pre ++ lit "COP 51.558,00" ++ post) banks = [cop_51558].
Proof.
  intros Hpre Hpost.
  assert (E1 : finditer true cop_pattern (pre ++ lit "COP 51.558,00" ++ post)
               = [MatchObj (lit "COP 51.558,00" ++ post) 13
                           [(1, lit "51.558,00")]]).
  { destruct (finditer_skip_to_cop true _ _ cop_pattern pre post
                cop_pattern_head cop_pattern_tail_not_C cop_needs_digit Hpre)
      as (p' & E).
    rewrite E, finditer_cop_at.
    rewrite (finditer_from_none true _ cop_pattern cop_needs_digit post _ Hpost).
    reflexivity. }
  assert (E2 : finditer true usd_pattern (pre ++ lit "COP 51.558,00" ++ post)
               = []).
  { destruct (finditer_skip_to_cop true _ _ usd_pattern pre post
                usd_pattern_head usd_pattern_tail_not_C usd_needs_digit Hpre)
      as (p' & E).
    rewrite E, finditer_usd_at.
    apply (finditer_from_none true _ usd_pattern usd_needs_digit post _ Hpost). }
  assert (E3 : finditer false dollar_sign_pattern
                 (pre ++ lit "COP 51.558,00" ++ post) = []).
  { destruct (finditer_skip_to_cop false _ _ dollar_sign_pattern pre post
                (fun a b H => H) dollar_pattern_tail_not_C dollar_needs_digit
                Hpre) as (p' & E).
    rewrite E, finditer_dollar_at.
    apply (finditer_from_none false _ dollar_sign_pattern dollar_needs_digit
             post _ Hpost). }
  unfold extract_amounts, cop_amounts, usd_amounts, dollar_amounts, findall.
  rewrite E1, E2, E3. vm_compute. reflexivity.
Qed.

(** The claim C5 as stated fails: a text that contains "COP 51.558,00"
    and a second amount yields two candidates. *)
Lemma cop_marker_with_second_amount :
  contains (lit "COP 51.558,00") (lit "Compraste COP 51.558,00 cuota USD 5.00")
  = true
  /\ List.length
       (extract_amounts (lit "Compraste COP 51.558,00 cuota USD 5.00") None)
     = 2.
Proof. split; vm_compute; reflexivity. Qed.

(** C5, amended: for every text that contains "COP 51.558,00" the cascade
    yields a candidate with value 51558.00 and currency COP (next to the
    candidates of the other amounts in the text); it is the only candidate
    when the text before and after holds no digit. *)
Theorem cop_marker_candidate (pre post : str) (banks : option (list str)) :
  (exists c,
     In c (extract_amounts (pre ++ lit "COP 51.558,00" ++ post) banks)
     /\ Float.value (amount c) = Some (51558 # 1)
     /\ currency c = lit "COP")
  /\ (no_digit pre -> no_digit post ->
      extract_amounts (pre ++ lit "COP 51.558,00" ++ post) banks
      = [cop_51558]).
Proof.
  split.
  - exists cop_51558. split; [|split].
    + apply In_prefixed_extract_amounts. apply in_or_app. left.
      apply cop_amounts_51558.
    + apply cop_51558_value.
    + reflexivity.
  - apply cop_marker_alone.
Qed.

Lemma cop_marker_candidate_witness :
  extract_amounts
    (lit "Compraste " ++ lit "COP 51.558,00" ++ lit " en EXITO SABANETA") None
  = [cop_51558].
Proof.
  apply (proj2 (cop_marker_candidate (lit "Compraste ")
                  (lit " en EXITO SABANETA") None));
    repeat (constructor; [vm_compute; discriminate|]); constructor.
Defined.

(** ** A dollar-sign amount of a Colombian bank *)

Lemma cop_200000_value :
  Float.value (amount cop_200000) = Some (200000 # 1)
  /\ Float.of_str (lit "200000") = Some (amount cop_200000).
Proof. split; vm_compute; reflexivity. Qed.

Section DollarMatch.

(** Character tests are evaluated on known characters only. *)
Local Arguments sym_match icase items !c /.
Local Arguments item_match icase !it !c /.

Lemma dollar_match_here (p : option ascii) (post : str) :
  numeral_continues post = false ->
  match_here false dollar_sign_pattern p (lit "$ 200.000" ++ post)
  = Some (MatchObj (lit "$ 200.000" ++ post) 9 [(1, lit "200.000")]).
Proof.
  intros H. unfold match_here, dollar_sign_pattern.
  destruct post as [|c1 post]; [vm_compute; reflexivity|].
  cbn. rewrite !sym_sep.
  destruct (Ascii.eqb c1 period || Ascii.eqb c1 comma)%bool eqn:E1;
    [|reflexivity].
  destruct post as [|c2 post]; [reflexivity|].
  cbn. rewrite ?sym_digit.
  destruct (is_digit c2) eqn:E2; [|reflexivity].
  destruct post as [|c3 post]; [reflexivity|].
  cbn. rewrite ?sym_digit.
  destruct (is_digit c3) eqn:E3; [|reflexivity].
  simpl in H. rewrite E1, E2, E3 in H. discriminate.
Qed.

End DollarMatch.

Lemma dollar_pattern_tail_not_dollar :
  syms_sat false (fun c => c <> "$"%char)
    (Seq (star space)
         (Grp 1 (seq [ times 1 3 digit;
                       star (Seq sep (exactly 3 digit));
                       opt (Seq sep (exactly 2 digit)) ]))).
Proof. cbn [syms_sat seq star times exactly opt sep space digit].
       repeat split; other_char. Qed.

Lemma dollar_amounts_200000 (pre post : str) :
  numeral_continues post = false ->
  In cop_200000 (dollar_amounts true (pre ++ lit "$ 200.000" ++ post)).
Proof.
  intros Hpost.
  unfold dollar_amounts. apply in_flat_map. exists (lit "200.000"). split.
  - unfold findall. apply in_map_iff.
    exists (MatchObj (lit "$ 200.000" ++ post) 9 [(1, lit "200.000")]).
    split; [reflexivity|].
    change (lit "$ 200.000" ++ post)
      with ("$"%char :: (lit " 200.000" ++ post)).
    eapply finditer_contains with (P := fun c => c <> "$"%char).
    + intros a b H. exact H.
    + exact dollar_pattern_tail_not_dollar.
    + intros H. apply H. reflexivity.
    + intros p'. apply (dollar_match_here p' post Hpost).
  - vm_compute. left. reflexivity.
Qed.

Lemma has_char_count (c : ascii) (m : str) :
  has_char c m = true -> (1 <=? count_char c m) = true.
Proof.
  unfold has_char, count_char. induction m as [|x m IH]; simpl;
    [discriminate|].
  destruct (Ascii.eqb c x); simpl; auto.
Qed.

(** A single period before two digits is the decimal point; with a second
    period the conversion fails, the numeral gives no candidate, and the
    fallback rule reads the text instead. *)
Example dollar_single_period_is_decimal :
  map (fun c => (Float.value (amount c), currency c))
      (extract_amounts (lit "$ 200.50") (Some [lit "Bancolombia"]))
  = [(Some (401 # 2), lit "COP")].
Proof. vm_compute. reflexivity. Qed.

Example dollar_two_periods_falls_back :
  dollar_amounts true (lit "$ 1.234.56") = []
  /\ map (fun c => (Float.value (amount c), currency c, formatted c))
         (extract_amounts (lit "$ 1.234.56") (Some [lit "Bancolombia"]))
     = [(Some (1234 # 1), lit "COP", lit "1.234")].
Proof. split; vm_compute; reflexivity. Qed.

(** * Further properties of the program *)

(** ** The output file *)

Lemma startswith_length (old s : str) :
  startswith old s = true -> List.length old <= List.length s.
Proof.
  revert s. induction old as [|a old IH]; intros s H; simpl; [lia|].
  destruct s as [|b s]; [discriminate|]. simpl in H.
  apply andb_true_iff in H. destruct H as [_ H]. apply IH in H. simpl. lia.
Qed.

Lemma replace_no_occurrence (old new s : str) :
  contains old s = false -> replace old new s = s.
Proof.
  unfold replace. induction s as [|c s IH]; intros H; [reflexivity|].
  simpl in H. apply orb_false_iff in H. destruct H as [H1 H2].
  cbn [replace_from]. rewrite H1, (IH H2). reflexivity.
Qed.

Section ReplaceGrows.

Variables old new : str.
Hypothesis old_nonempty : 1 <= List.length old.
Hypothesis new_longer : List.length old < List.length new.

Lemma replace_from_length (s : str) :
  forall skip, skip <= List.length s ->
    List.length s <= List.length (replace_from old new skip s) + skip.
Proof.
  induction s as [|c s IH]; intros skip Hskip; [simpl in *; lia|].
  cbn [replace_from]. simpl in Hskip. destruct skip as [|n].
  - destruct (startswith old (c :: s)) eqn:E.
    + apply startswith_length in E. simpl in E.
      rewrite length_app.
      specialize (IH (pred (List.length old)) ltac:(lia)). simpl. lia.
    + simpl. specialize (IH 0 ltac:(lia)). lia.
  - specialize (IH n ltac:(lia)). simpl. lia.
Qed.

Lemma replace_from_grows (s : str) :
  forall skip, skip <= List.length s ->
    contains old (skipn skip s) = true ->
    List.length s < List.length (replace_from old new skip s) + skip.
Proof.
  induction s as [|c s IH]; intros skip Hskip H.
  - simpl in Hskip. assert (skip = 0) by lia. subst. simpl in H.
    destruct old; [simpl in old_nonempty; lia|discriminate].
  - destruct skip as [|n].
    + cbn [skipn] in H. cbn [replace_from].
      destruct (startswith old (c :: s)) eqn:E.
      * pose proof (startswith_length _ _ E) as Hl. simpl in Hl.
        pose proof (replace_from_length s (pred (List.length old))
                      ltac:(lia)) as Hr.
        rewrite length_app. simpl. lia.
      * cbn [contains] in H. rewrite E in H. simpl in H.
        specialize (IH 0 ltac:(lia) H). simpl. lia.
    + cbn [skipn] in H. cbn [replace_from]. simpl in Hskip.
      specialize (IH n ltac:(lia) H). simpl. lia.
Qed.

End ReplaceGrows.

Lemma json_suffix_no_early_occurrence (stem : str) :
  contains (lit ".json") stem = false ->
  forall c rest, stem = c :: rest ->
    startswith (lit ".json") (stem ++ lit ".json") = false.
Proof.
  intros H c rest ->.
  cbn [contains] in H. apply orb_false_iff in H. destruct H as [H _].
  destruct rest as [|c2 [|c3 [|c4 [|c5 r]]]];
    try (simpl; rewrite ?andb_false_r; reflexivity).
  simpl in H |- *. exact H.
Qed.

Lemma replace_json_stem (stem : str) :
  contains (lit ".json") stem = false ->
  replace (lit ".json") (lit "_parsed.json") (stem ++ lit ".json")
  = stem ++ lit "_parsed.json".
Proof.
  unfold replace. induction stem as [|c stem IH]; intros H.
  - vm_compute. reflexivity.
  - pose proof (json_suffix_no_early_occurrence (c :: stem) H c stem eq_refl)
      as E.
    cbn [app replace_from]. cbn [app] in E. rewrite E.
    cbn [contains] in H. apply orb_false_iff in H. destruct H as [_ H].
    rewrite (IH H). reflexivity.
Qed.

(** X1: the parsed data is written over the annotation file itself
    exactly when the path given holds no ".json"; a path that ends in
    ".json" and holds no other ".json" gets "_parsed" before the
    extension. *)
Theorem output_file_overwrites_input_iff (annotation_file stem : str) :
  (output_file annotation_file = annotation_file
   <-> contains (lit ".json") annotation_file = false)
  /\ (contains (lit ".json") stem = false ->
      output_file (stem ++ lit ".json") = stem ++ lit "_parsed.json").
Proof.
  split; [split|].
  - intros E. destruct (contains (lit ".json") annotation_file) eqn:H;
      [|reflexivity].
    exfalso.
    pose proof (replace_from_grows (lit ".json") (lit "_parsed.json")
                  ltac:(simpl; lia) ltac:(simpl; lia)
                  annotation_file 0 ltac:(lia) H) as Hl.
    unfold output_file, replace in E. rewrite E in Hl. lia.
  - apply replace_no_occurrence.
  - apply replace_json_stem.
Qed.

Lemma output_file_overwrites_input_iff_witness :
  output_file (lit "scan.txt") = lit "scan.txt"
  /\ output_file (lit "scans/receipt" ++ lit ".json")
     = lit "scans/receipt" ++ lit "_parsed.json".
Proof.
  split.
  - apply (proj1 (output_file_overwrites_input_iff (lit "scan.txt") [])).
    vm_compute. reflexivity.
  - apply (proj2 (output_file_overwrites_input_iff [] (lit "scans/receipt"))).
    vm_compute. reflexivity.
Defined.

(** ** Extracted texts occur in the input *)

Lemma Iter_inside (R : mstate -> mstate -> Prop) (t : str) :
  (forall a b, R a b -> inside t a -> inside t b) ->
  forall n a b, Iter R n a b -> inside t a -> inside t b.
Proof.
  intros HR n a b H. induction H as [st|n a m b Ham Hlt Hmb IH]; eauto.
Qed.

Lemma Match_inside (ic : bool) (t : str) (r : regex) :
  forall a b, Match ic r a b -> inside t a -> inside t b.
Proof.
  induction r as [|items|r1 IH1 r2 IH2|r1 IH1 r2 IH2|g lo hi r1 IH1|i r1 IH1| |];
    simpl; intros a b H Ha.
  - subst. exact Ha.
  - destruct H as (c & s & Ea & _ & ->). destruct Ha as ((pre & Et) & Hc).
    split; [|exact Hc]. exists (pre ++ [c]). cbn [rest].
    rewrite <- app_assoc, Et, Ea. reflexivity.
  - destruct H as (m & H1 & H2). eauto.
  - destruct H as [H|H]; eauto.
  - destruct H as (n & _ & _ & H). eapply Iter_inside; eauto.
  - destruct H as (m & H & ->).
    pose proof (IH1 _ _ H Ha) as ((prem & Em) & Hm).
    destruct Ha as ((pre & Et) & _).
    destruct (Match_consumed ic (fun _ => True) r1 a m (syms_sat_True ic r1) H)
      as (Ec & _ & _).
    split; cbn [rest caps]; [eauto|].
    intros j w [E|Hin]; [|eauto]. injection E as <- <-.
    exists pre, (rest m). rewrite Et. f_equal. exact Ec.
  - destruct H as [_ ->]. exact Ha.
  - destruct H as [_ ->]. exact Ha.
Qed.

Lemma lookup_In (i : nat) (cs : list (nat * str)) (w : str) :
  lookup i cs = Some w -> In (i, w) cs.
Proof.
  induction cs as [|[j v] cs IH]; simpl; [discriminate|].
  destruct (i =? j) eqn:E.
  - intros H. inversion H; subst. apply Nat.eqb_eq in E. subst. auto.
  - auto.
Qed.

Lemma finditer_from_suffix (ic : bool) (r : regex) (s : str) :
  forall skip p m, In m (finditer_from ic r skip p s) ->
    exists p' pre s', s = pre ++ s' /\ match_here ic r p' s' = Some m.
Proof.
  induction s as [|c s IH]; intros skip p m H; simpl in H.
  - destruct skip; [|contradiction].
    destruct (match_here ic r p []) eqn:E; [|contradiction].
    destruct H as [->|[]]. exists p, [], []. auto.
  - assert (Hrec : forall n, In m (finditer_from ic r n (Some c) s) ->
              exists p' pre s', c :: s = pre ++ s'
                                /\ match_here ic r p' s' = Some m).
    { intros n Hn. destruct (IH _ _ _ Hn) as (p' & pre & s' & -> & E).
      exists p', (c :: pre), s'. auto. }
    destruct skip as [|n]; [|eauto].
    destruct (match_here ic r p (c :: s)) eqn:E; [|eauto].
    destruct H as [->|H]; [|eauto]. exists p, [], (c :: s). auto.
Qed.

(** Whatever a match reports, as a whole or as a group, occurs in the
    text searched. *)
Lemma match_here_occurs (ic : bool) (r : regex) (p : option ascii)
  (pre s : str) (m : match_obj) :
  match_here ic r p s = Some m ->
  occurs_in (group0 m) (pre ++ s)
  /\ forall i w, group i m = Some w -> occurs_in w (pre ++ s).
Proof.
  intros H. apply match_here_sound in H. destruct H as (st & HM & ->).
  split.
  - destruct (Match_span ic r _ _ HM) as (w & Ew & Hp).
    cbn [rest pos] in Ew, Hp. unfold group0. cbn [m_len m_text].
    rewrite Hp, Ew. cbn [Nat.add]. rewrite firstn_length_app.
    exists pre, (rest st). reflexivity.
  - assert (Hin : inside (pre ++ s) (MState 0 p s [])).
    { split; cbn [rest caps]; [eauto|]. intros i w []. }
    destruct (Match_inside ic (pre ++ s) r _ _ HM Hin) as (_ & Hc).
    intros i w Hl. unfold group in Hl. cbn [m_caps] in Hl.
    apply lookup_In in Hl. eauto.
Qed.

Lemma findall_occurs (ic : bool) (r : regex) (text a : str) :
  In a (findall ic r text) -> occurs_in a text.
Proof.
  unfold findall, finditer. intros H. apply in_map_iff in H.
  destruct H as (m & <- & H). apply finditer_from_suffix in H.
  destruct H as (p & pre & s & -> & H).
  destruct (match_here_occurs ic r p pre s m H) as (H0 & Hg).
  unfold findall_item. destruct (ngroups r); [exact H0|].
  destruct (group 1 m) as [w|] eqn:E; [eauto|].
  exists [], (pre ++ s). reflexivity.
Qed.

(** X2: every date, reference number and account number returned occurs
    in the text as it stands; nothing is normalised or made up. *)
Theorem extracted_lists_occur_in_text (text a : str) :
  In a (extract_dates text) \/ In a (extract_reference_numbers text)
  \/ In a (extract_account_numbers text) ->
  occurs_in a text.
Proof.
  unfold extract_dates, extract_reference_numbers, extract_account_numbers.
  intros [H|[H|H]]; apply in_flat_map in H;
    destruct H as (pattern & _ & H); eapply findall_occurs; eauto.
Qed.

Lemma extracted_lists_occur_in_text_witness :
  occurs_in (lit "12/03/2024") (lit "Pago 12/03/2024 REF: AB-77 ****1234").
Proof.
  apply extracted_lists_occur_in_text. left. vm_compute. left. reflexivity.
Defined.

(** ** Texts without digits *)

Lemma needs_digit_b_sound (ic : bool) (r : regex) :
  needs_digit_b r = true -> needs ic (fun c => is_digit c = true) r.
Proof.
  induction r as [|items|r1 IH1 r2 IH2|r1 IH1 r2 IH2|g lo hi r1 IH1|i r1 IH1| |];
    simpl; try discriminate; intros H.
  - intros c Hc. unfold sym_match in Hc. apply existsb_exists in Hc.
    destruct Hc as (it & Hin & Hit).
    rewrite forallb_forall in H. specialize (H it Hin).
    destruct it; try discriminate. exact Hit.
  - apply orb_true_iff in H. tauto.
  - apply andb_true_iff in H. tauto.
  - apply andb_true_iff in H. destruct H as [Hlo H]. split; auto.
    destruct lo; [discriminate|lia].
  - auto.
Qed.

Lemma findall_no_digit (ic : bool) (r : regex) (text : str) :
  needs_digit_b r = true -> no_digit text -> findall ic r text = [].
Proof.
  intros Hr Ht. unfold findall, finditer.
  rewrite (finditer_from_none ic (fun c => is_digit c = true) r
             (needs_digit_b_sound ic r Hr) text None Ht).
  reflexivity.
Qed.

Lemma first_match_no_digit (ic : bool) (patterns : list regex) (text : str) :
  forallb needs_digit_b patterns = true -> no_digit text ->
  first_match ic patterns text = None.
Proof.
  intros Hp Ht. induction patterns as [|r rs IH]; [reflexivity|].
  simpl in Hp. apply andb_true_iff in Hp. destruct Hp as [Hr Hrs].
  cbn [first_match].
  rewrite (search_needs ic (fun c => is_digit c = true) r text
             (needs_digit_b_sound ic r Hr) Ht).
  auto.
Qed.

Lemma flat_map_findall_no_digit (ic : bool) (patterns : list regex)
  (text : str) :
  forallb needs_digit_b patterns = true -> no_digit text ->
  flat_map (fun pattern => findall ic pattern text) patterns = [].
Proof.
  intros Hp Ht. induction patterns as [|r rs IH]; [reflexivity|].
  simpl in Hp. apply andb_true_iff in Hp. destruct Hp as [Hr Hrs].
  cbn [flat_map]. rewrite (findall_no_digit ic r text Hr Ht), (IH Hrs).
  reflexivity.
Qed.

Lemma extract_amounts_no_digit (text : str) (banks : option (list str)) :
  no_digit text -> extract_amounts text banks = [].
Proof.
  intros Ht.
  unfold extract_amounts, cop_amounts, usd_amounts, dollar_amounts,
    general_amounts.
  rewrite !findall_no_digit by (exact Ht || reflexivity). reflexivity.
Qed.

(** X3: a text without any digit yields no amount, no date, no time, no
    card and no account number, whatever words it holds; the record built
    from it is invalid. *)
Theorem no_digit_no_fields (set_order : list str -> list str)
  (data : document) :
  let t := parse_transaction set_order data in
  no_digit (raw_text t) ->
  amounts t = [] /\ dates t = [] /\ account_numbers t = []
  /\ time t = None /\ card_info t = None
  /\ is_valid (validate_transaction t) = false.
Proof.
  cbv zeta. unfold parse_transaction. cbn [raw_text amounts dates
    account_numbers time card_info].
  set (text := extract_text_from_annotations _). intros Ht.
  assert (Ha : extract_amounts text
                 (Some (extract_bank_names set_order
                          match responses data with
                          | Some (first :: _) => first
                          | _ => top_level data
                          end)) = []) by (apply extract_amounts_no_digit; exact Ht).
  repeat split.
  - exact Ha.
  - apply flat_map_findall_no_digit; [reflexivity|exact Ht].
  - apply flat_map_findall_no_digit; [reflexivity|exact Ht].
  - unfold extract_time.
    rewrite first_match_no_digit; [reflexivity|reflexivity|exact Ht].
  - unfold extract_card_info.
    rewrite first_match_no_digit; [reflexivity|reflexivity|exact Ht].
  - rewrite validate_is_valid. cbn [amounts]. rewrite Ha. reflexivity.
Qed.

Lemma no_digit_no_fields_witness :
  is_valid
    (validate_transaction
       (parse_transaction order_first_seen
          (Document None
             (Annotations
                (Some [Entry (Some (lit "Compraste en EXITO con T.Cred"))])
                None None))))
  = false.
Proof.
  apply (no_digit_no_fields order_first_seen).
  repeat (constructor; [vm_compute; discriminate|]). constructor.
Defined.

(** ** Numerals that always convert *)

Lemma sym_period_exact (ic : bool) (c : ascii) :
  sym_match ic [IChar period] c = true -> c = period.
Proof.
  destruct ic, c as [[] [] [] [] [] [] [] []]; vm_compute; intros H;
    first [discriminate H | reflexivity].
Qed.

Lemma sym_comma_exact (ic : bool) (c : ascii) :
  sym_match ic [IChar comma] c = true -> c = comma.
Proof.
  destruct ic, c as [[] [] [] [] [] [] [] []]; vm_compute; intros H;
    first [discriminate H | reflexivity].
Qed.

(** The numeral of the COP, USD and fallback patterns: a digit, then
    digits and thousands separators [T], then nothing or the decimal
    separator [D] and two digits. *)
Lemma Match_numeral (ic g : bool) (lo : nat) (hi : option nat) (T D : ascii)
  (a b : mstate) :
  (forall c, sym_match ic [IChar T] c = true -> c = T) ->
  (forall c, sym_match ic [IChar D] c = true -> c = D) ->
  Match ic
    (Grp 1 (Seq (times 1 3 digit)
                (Seq (Rep g lo hi (Seq (Sym [IChar T]) (exactly 3 digit)))
                     (opt (Seq (Sym [IChar D]) (exactly 2 digit))))))
    a b ->
  exists d w B,
    lookup 1 (caps b) = Some (d :: w ++ B)
    /\ is_digit d = true
    /\ Forall (fun x => is_digit x = true \/ x = T) w
    /\ (B = [] \/ exists d1 d2, B = [D; d1; d2] /\ is_digit d1 = true
                                /\ is_digit d2 = true).
Proof.
  intros HT HD (m & H & ->).
  destruct (Match_consumed ic (fun _ => True) _ a m (syms_sat_True ic _) H)
    as (Ec & _ & _).
  destruct H as (m1 & H1 & m2 & H2 & H3).
  assert (Hdig : syms_sat ic (fun x => is_digit x = true \/ x = T) digit).
  { simpl. intros c Hc. rewrite orb_false_r in Hc. auto. }
  (* the leading digits *)
  destruct H1 as (n & Hn & _ & H1).
  destruct H1 as [st|n a0 x m1 Hax Hlt H1]; [lia|].
  destruct Hax as (d & s & Ea & Hd & ->). rewrite sym_digit in Hd.
  destruct (Iter_word (Match ic digit) _
              (fun u v Huv => Match_word ic _ digit Hdig u v Huv)
              _ _ _ H1) as (w1 & E1 & _ & F1).
  cbn [rest] in E1.
  (* the groups of thousands *)
  assert (Hgrp : syms_sat ic (fun x => is_digit x = true \/ x = T)
                   (Rep g lo hi (Seq (Sym [IChar T]) (exactly 3 digit)))).
  { simpl. split.
    - intros c Hc. right. apply HT. exact Hc.
    - intros c Hc. rewrite orb_false_r in Hc. auto. }
  destruct (Match_word ic _ _ Hgrp _ _ H2) as (w2 & E2 & _ & F2).
  (* the decimals *)
  assert (HB : exists B, rest m2 = B ++ rest m
                 /\ (B = [] \/ exists d1 d2, B = [D; d1; d2]
                                 /\ is_digit d1 = true /\ is_digit d2 = true)).
  { destruct H3 as (k & _ & Hk & H3). simpl in Hk.
    destruct H3 as [st|k m2' y m' Hy _ H3].
    - exists []. auto.
    - destruct H3 as [st|k y' z m'' _ _ _]; [|lia].
      destruct Hy as (y1 & (c & s' & Em & Hc & ->) & Hy).
      apply HD in Hc. subst c.
      assert (Hs : syms_sat ic (fun x => is_digit x = true) (exactly 2 digit)).
      { simpl. intros c Hc. rewrite orb_false_r in Hc. exact Hc. }
      destruct (Match_word ic _ _ Hs _ _ Hy) as (wd & Ed & Pd & Fd).
      destruct Hy as (j & Hj1 & Hj2 & Hy). simpl in Hj2.
      apply Iter_Sym_pos in Hy. cbn [rest pos] in *.
      assert (Hl : List.length wd = 2) by lia.
      destruct wd as [|d1 [|d2 [|? ?]]]; try discriminate.
      inversion Fd as [|? ? Hd1 Fd']. inversion Fd' as [|? ? Hd2 _]. subst.
      exists [D; d1; d2]. split; [exact Em|].
      right. eauto. }
  destruct HB as (B & EB & HBs).
  exists d, (w1 ++ w2), B. cbn [caps lookup Nat.eqb].
  repeat split; auto.
  - f_equal. apply (app_inv_tail (rest m)). rewrite <- Ec, Ea, E1, E2, EB.
    cbn [app]. rewrite <- !app_assoc. reflexivity.
  - apply Forall_app. auto.
Qed.

Lemma replace_char_other (c : ascii) (new s : str) :
  Forall (fun x => x <> c) s -> replace_char c new s = s.
Proof.
  unfold replace_char. induction 1 as [|x s Hx Hs IH]; [reflexivity|].
  cbn [flat_map]. rewrite IH.
  destruct (Ascii.eqb x c) eqn:E; [apply Ascii.eqb_eq in E; contradiction|].
  reflexivity.
Qed.

Lemma replace_char_app (c : ascii) (new s1 s2 : str) :
  replace_char c new (s1 ++ s2)
  = replace_char c new s1 ++ replace_char c new s2.
Proof. unfold replace_char. apply flat_map_app. Qed.

Lemma replace_char_strip (c : ascii) (s : str) :
  Forall (fun x => is_digit x = true \/ x = c) s ->
  Forall (fun x => is_digit x = true) (replace_char c [] s).
Proof.
  unfold replace_char. induction 1 as [|x s Hx Hs IH]; [constructor|].
  cbn [flat_map]. destruct (Ascii.eqb x c) eqn:E; [exact IH|].
  destruct Hx as [Hx|Hx]; [constructor; auto|].
  apply Ascii.eqb_neq in E. contradiction.
Qed.

Lemma digit_not_separator (x : ascii) :
  is_digit x = true -> x <> period /\ x <> comma.
Proof.
  destruct x as [[] [] [] [] [] [] [] []]; vm_compute; intros H;
    first [discriminate H | split; discriminate].
Qed.

Lemma digits_value_some (ds : str) :
  Forall (fun x => is_digit x = true) ds ->
  forall acc, exists n, Float.digits_value ds acc = Some n.
Proof.
  induction 1 as [|x ds Hx Hs IH]; intros acc; simpl; [eauto|].
  rewrite Hx. apply IH.
Qed.

Lemma split_point_digits (ds tail : str) :
  Forall (fun x => is_digit x = true) ds ->
  Float.split_point (ds ++ period :: tail) = (ds, Some tail)
  /\ Float.split_point ds = (ds, None).
Proof.
  induction 1 as [|x ds Hx Hs [IH1 IH2]]; [split; reflexivity|].
  destruct (digit_not_separator x Hx) as [Hp _].
  cbn [app Float.split_point].
  replace (Ascii.eqb x "."%char) with false
    by (symmetry; apply Ascii.eqb_neq; exact Hp).
  rewrite IH1, IH2. split; reflexivity.
Qed.

(** [float] accepts digits, and digits with a period and digits. *)
Lemma of_str_decimal (d : ascii) (ds B : str) :
  Forall (fun x => is_digit x = true) (d :: ds) ->
  (B = [] \/ exists dd, B = period :: dd
                        /\ Forall (fun x => is_digit x = true) dd) ->
  exists f, Float.of_str (d :: ds ++ B) = Some f.
Proof.
  intros Hds [->|(dd & -> & Hdd)]; unfold Float.of_str.
  - rewrite app_nil_r. destruct (split_point_digits (d :: ds) [] Hds) as [_ E].
    rewrite E. rewrite app_nil_r.
    destruct (digits_value_some (d :: ds) Hds 0%N) as (n & En).
    rewrite En. eauto.
  - change (d :: ds ++ period :: dd) with ((d :: ds) ++ period :: dd).
    destruct (split_point_digits (d :: ds) dd Hds) as [E _]. rewrite E.
    assert (Hall : Forall (fun x => is_digit x = true) ((d :: ds) ++ dd))
      by (apply Forall_app; auto).
    destruct (digits_value_some _ Hall 0%N) as (n & En).
    cbn [app] in En |- *. rewrite En. eauto.
Qed.

Lemma replace_char_digit (c : ascii) (new : str) (x : ascii) :
  is_digit x = true -> c = period \/ c = comma ->
  replace_char c new [x] = [x].
Proof.
  intros Hx Hc. apply replace_char_other. constructor; [|constructor].
  destruct (digit_not_separator x Hx). destruct Hc as [->| ->]; assumption.
Qed.

Lemma numeral_converts (T D : ascii) (d : ascii) (w B : str)
  (amount_str : str -> str) :
  T <> D -> (T = period /\ D = comma \/ T = comma /\ D = period) ->
  (forall s, amount_str s
             = replace_char comma [period] (replace_char T [] s)) ->
  is_digit d = true ->
  Forall (fun x => is_digit x = true \/ x = T) w ->
  (B = [] \/ exists d1 d2, B = [D; d1; d2] /\ is_digit d1 = true
                           /\ is_digit d2 = true) ->
  exists f, Float.of_str (amount_str (d :: w ++ B)) = Some f.
Proof.
  intros HTD Hsep Hstr Hd Hw HB. rewrite Hstr.
  change (d :: w ++ B) with ([d] ++ w ++ B).
  rewrite !replace_char_app.
  pose proof (replace_char_strip T w Hw) as Hw'.
  set (w' := replace_char T [] w) in *.
  assert (E1 : replace_char T [] [d] = [d])
    by (apply replace_char_digit; [exact Hd|tauto]).
  assert (E2 : replace_char comma [period] [d] = [d])
    by (apply replace_char_digit; auto).
  assert (E3 : replace_char comma [period] w' = w').
  { apply replace_char_other. eapply Forall_impl; [|exact Hw'].
    intros x Hx. apply (digit_not_separator x Hx). }
  rewrite E1, E2, E3.
  assert (HB' : exists B',
            replace_char comma [period] (replace_char T [] B) = B'
            /\ (B' = [] \/ exists dd, B' = period :: dd
                            /\ Forall (fun x => is_digit x = true) dd)).
  { destruct HB as [->|(d1 & d2 & -> & H1 & H2)].
    - exists []. auto.
    - exists [period; d1; d2]. split; [|right; eauto].
      assert (HT : T = period \/ T = comma) by tauto.
      assert (Hd1 : replace_char T [] [d1] = [d1]
                    /\ replace_char comma [period] [d1] = [d1])
        by (split; apply replace_char_digit; auto).
      assert (Hd2 : replace_char T [] [d2] = [d2]
                    /\ replace_char comma [period] [d2] = [d2])
        by (split; apply replace_char_digit; auto).
      change [D; d1; d2] with ([D] ++ [d1] ++ [d2]).
      rewrite !replace_char_app.
      destruct Hd1 as [-> ->], Hd2 as [-> ->].
      destruct Hsep as [[-> ->]|[-> ->]]; reflexivity. }
  destruct HB' as (B' & -> & HB').
  apply (of_str_decimal d w' B'); [constructor; auto|exact HB'].
Qed.

Lemma flat_map_singletons (X Y : Type) (f : X -> list Y) (l : list X) :
  (forall x, In x l -> List.length (f x) = 1) ->
  List.length (flat_map f l) = List.length l.
Proof.
  induction l as [|x l IH]; intros H; [reflexivity|].
  cbn [flat_map]. rewrite length_app, (H x (or_introl eq_refl)), IH.
  - reflexivity.
  - intros y Hy. apply H. simpl. auto.
Qed.

Lemma candidate_one (amount_str : str) (mk : spec_float -> amount_info) :
  (exists f, Float.of_str amount_str = Some f) ->
  List.length (candidate amount_str mk) = 1.
Proof. intros (f & E). unfold candidate. rewrite E. reflexivity. Qed.

(** The group of a match found by a numeral pattern. *)
Lemma findall_numeral (ic g : bool) (lo : nat) (hi : option nat) (T D : ascii)
  (pat : regex) (text a : str) :
  (forall c, sym_match ic [IChar T] c = true -> c = T) ->
  (forall c, sym_match ic [IChar D] c = true -> c = D) ->
  ngroups pat = 1 ->
  ends_with
    (Grp 1 (Seq (times 1 3 digit)
                (Seq (Rep g lo hi (Seq (Sym [IChar T]) (exactly 3 digit)))
                     (opt (Seq (Sym [IChar D]) (exactly 2 digit))))))
    pat ->
  In a (findall ic pat text) ->
  exists d w B,
    a = d :: w ++ B
    /\ is_digit d = true
    /\ Forall (fun x => is_digit x = true \/ x = T) w
    /\ (B = [] \/ exists d1 d2, B = [D; d1; d2] /\ is_digit d1 = true
                                /\ is_digit d2 = true).
Proof.
  intros HT HD Hn He H. apply findall_In in H.
  destruct H as (p & s & st & HM & ->).
  destruct (Match_ends_with ic _ _ He _ _ HM) as (m & Hg).
  apply (Match_numeral ic g lo hi T D m st HT HD) in Hg.
  destruct Hg as (d & w & B & Hl & Hrest).
  exists d, w, B. split; [|exact Hrest].
  rewrite (findall_item_group _ _ 0 Hn). unfold group_str, group.
  cbn [m_caps]. rewrite Hl. reflexivity.
Qed.

(** X4: an amount found by the COP pattern, the USD pattern or the
    fallback pattern always converts to a number: each match gives one
    candidate, none is discarded. *)
Theorem explicit_amounts_never_dropped (text : str) (colombian : bool) :
  List.length (cop_amounts text)
  = List.length (findall true cop_pattern text)
  /\ List.length (usd_amounts text)
     = List.length (findall true usd_pattern text)
  /\ List.length (general_amounts colombian text)
     = List.length (findall false general_cop text).
Proof.
  assert (Hne : period <> comma) by discriminate.
  repeat split.
  - unfold cop_amounts. apply flat_map_singletons. intros a Ha.
    apply candidate_one.
    destruct (findall_numeral true true 0 None period comma cop_pattern text a
                (sym_period_exact true) (sym_comma_exact true) eq_refl
                ltac:(simpl; tauto) Ha) as (d & w & B & -> & Hd & Hw & HB).
    apply (numeral_converts period comma d w B cop_amount_str); auto.
  - unfold usd_amounts. apply flat_map_singletons. intros a Ha.
    apply candidate_one.
    destruct (findall_numeral true true 0 None comma period usd_pattern text a
                (sym_comma_exact true) (sym_period_exact true) eq_refl
                ltac:(simpl; tauto) Ha) as (d & w & B & -> & Hd & Hw & HB).
    apply (numeral_converts comma period d w B
             (fun s => replace_char comma [] s)); auto.
    intros s. symmetry. apply replace_char_other.
    unfold replace_char. clear. induction s as [|x s IH]; [constructor|].
    cbn [flat_map]. destruct (Ascii.eqb x comma) eqn:E; [exact IH|].
    constructor; [apply Ascii.eqb_neq; exact E|exact IH].
  - unfold general_amounts. apply flat_map_singletons. intros a Ha.
    apply candidate_one.
    destruct (findall_numeral false true 1 None period comma general_cop text a
                (sym_period_exact false) (sym_comma_exact false) eq_refl
                ltac:(simpl; tauto) Ha) as (d & w & B & -> & Hd & Hw & HB).
    apply (numeral_converts period comma d w B cop_amount_str); auto.
Qed.

(** ** Currencies *)

Lemma extract_amounts_split (text : str) (banks : option (list str)) :
  let colombian := is_colombian_bank banks in
  let prefixed :=
    cop_amounts text ++ usd_amounts text ++ dollar_amounts colombian text in
  (prefixed <> [] /\ extract_amounts text banks = prefixed)
  \/ (prefixed = [] /\ extract_amounts text banks
                       = general_amounts colombian text).
Proof.
  cbv zeta. unfold extract_amounts. cbn [app]. rewrite <- app_assoc.
  destruct (cop_amounts text ++ usd_amounts text
            ++ dollar_amounts (is_colombian_bank banks) text) as [|a l];
    [right|left]; split; auto; discriminate.
Qed.

(** X5: a candidate's currency is COP, USD or UNKNOWN.  UNKNOWN is given
    by the fallback rule only, when no Colombian bank is detected; and
    with a Colombian bank detected only an explicit USD marker gives
    USD. *)
Theorem candidate_currency (text : str) (banks : option (list str))
  (c : amount_info) :
  In c (extract_amounts text banks) ->
  (currency c = lit "COP" \/ currency c = lit "USD"
   \/ currency c = lit "UNKNOWN")
  /\ (currency c = lit "UNKNOWN" ->
      is_colombian_bank banks = false
      /\ extract_amounts text banks = general_amounts false text)
  /\ (is_colombian_bank banks = true -> currency c = lit "USD" ->
      In c (usd_amounts text)).
Proof.
  intros H.
  destruct (extract_amounts_split text banks) as [[_ E]|[_ E]];
    rewrite E in H |- *.
  - apply in_app_or in H. destruct H as [H|H];
      [|apply in_app_or in H; destruct H as [H|H]].
    + apply in_flat_map in H. destruct H as (m & _ & H).
      apply candidate_In in H. destruct H as (a & ->).
      repeat split; auto; discriminate.
    + pose proof H as Hin.
      apply in_flat_map in H. destruct H as (m & _ & H).
      apply candidate_In in H. destruct H as (a & ->).
      repeat split; auto; discriminate.
    + apply in_flat_map in H. destruct H as (m & _ & H).
      destruct (is_colombian_bank banks); apply candidate_In in H;
        destruct H as (a & ->); repeat split; auto; discriminate.
  - apply in_flat_map in H. destruct H as (m & _ & H).
    apply candidate_In in H. destruct H as (a & ->). cbn [currency].
    destruct (is_colombian_bank banks); repeat split; auto; discriminate.
Qed.

Lemma candidate_currency_witness :
  In (AmountInfo (S754_finite false 5497558138880000 (-41)%Z) (lit "UNKNOWN")
        (lit "2.500")) (extract_amounts (lit "total 2.500") (Some [lit "Chase"]))
  /\ is_colombian_bank (Some [lit "Chase"]) = false.
Proof.
  assert (H : In (AmountInfo (S754_finite false 5497558138880000 (-41)%Z)
                    (lit "UNKNOWN") (lit "2.500"))
                 (extract_amounts (lit "total 2.500") (Some [lit "Chase"]))).
  { vm_compute. left. reflexivity. }
  split; [exact H|].
  exact (proj1 (proj1 (proj2 (candidate_currency _ _ _ H)) eq_refl)).
Defined.

(** ** Amounts are not negative *)

Lemma iter_pos_invariant (X : Type) (f : X -> X) (P : X -> Prop) :
  (forall x, P x -> P (f x)) ->
  forall p x, P x -> P (iter_pos f p x).
Proof.
  intros Hf. induction p as [p IH|p IH|]; intros x Hx; simpl; auto.
Qed.

Lemma shr_1_nonneg (mrs : shr_record) :
  (0 <= shr_m mrs)%Z -> (0 <= shr_m (shr_1 mrs))%Z.
Proof.
  destruct mrs as [m r s]. simpl.
  destruct m as [|[p|p|]|[p|p|]]; simpl; intros H; lia.
Qed.

Lemma shr_fexp_nonneg (m e : Z) (l : location) :
  (0 <= m)%Z ->
  (0 <= shr_m (fst (shr_fexp Float.prec Float.emax m e l)))%Z.
Proof.
  intros Hm. unfold shr_fexp, shr.
  assert (H0 : (0 <= shr_m (shr_record_of_loc m l))%Z).
  { destruct l as [|[]]; exact Hm. }
  destruct (fexp Float.prec Float.emax (Zdigits2 m + e) - e)%Z; simpl; auto.
  apply iter_pos_invariant; [exact shr_1_nonneg|exact H0].
Qed.

Lemma binary_round_aux_nonneg (m e : Z) (l : location) :
  (0 <= m)%Z ->
  nonneg_float (binary_round_aux Float.prec Float.emax false m e l).
Proof.
  intros Hm. unfold binary_round_aux.
  pose proof (shr_fexp_nonneg m e l Hm) as H1.
  destruct (shr_fexp Float.prec Float.emax m e l) as [mrs' e'].
  cbn [fst] in H1.
  assert (H2 : (0 <= round_nearest_even (shr_m mrs')
                       (loc_of_shr_record mrs'))%Z).
  { unfold round_nearest_even.
    destruct (loc_of_shr_record mrs') as [|[]]; try lia.
    destruct (Z.even (shr_m mrs')); lia. }
  pose proof (shr_fexp_nonneg _ e' loc_Exact H2) as H3.
  destruct (shr_fexp Float.prec Float.emax _ e' loc_Exact) as [mrs'' e''].
  cbn [fst] in H3.
  destruct (shr_m mrs'') as [|p|p]; simpl; [exact I| |lia].
  destruct (_ <=? _)%Z; exact I.
Qed.

Lemma of_decimal_nonneg (n : N) (k : nat) :
  nonneg_float (Float.of_decimal n k).
Proof.
  unfold Float.of_decimal. destruct n as [|p]; [exact I|].
  unfold SFdiv, SFdiv_core_binary.
  set (d := Z.to_pos (10 ^ Z.of_nat k)).
  set (m' := match (_ - _ - _)%Z with
             | Z0 => Zpos p
             | Zpos _ => Z.shiftl (Zpos p) _
             | Zneg _ => 0%Z
             end).
  assert (Hm : (0 <= m')%Z).
  { subst m'. destruct (_ - _ - _)%Z; try lia.
    apply Z.shiftl_nonneg. lia. }
  pose proof (Z.div_pos m' (Zpos d) Hm ltac:(lia)) as Hq.
  unfold Z.div in Hq.
  destruct (Z.div_eucl m' (Zpos d)) as [q r]. cbn [fst] in Hq.
  apply binary_round_aux_nonneg. exact Hq.
Qed.

Lemma of_str_nonneg (s : str) (f : spec_float) :
  Float.of_str s = Some f -> nonneg_float f.
Proof.
  unfold Float.of_str. destruct (Float.split_point s) as [ip fp].
  destruct (ip ++ _) as [|x l]; [discriminate|].
  destruct (Float.digits_value (x :: l) 0); [|discriminate].
  intros H. inversion H. apply of_decimal_nonneg.
Qed.

Lemma candidate_In_float (amount_str : str) (mk : spec_float -> amount_info)
  (c : amount_info) :
  In c (candidate amount_str mk) ->
  exists a, Float.of_str amount_str = Some a /\ c = mk a.
Proof.
  unfold candidate. destruct (Float.of_str amount_str) as [a|]; simpl;
    intros H; [destruct H as [<-|[]]; eauto|contradiction].
Qed.

(** X6: no amount is negative and none is a NaN: the value of every
    candidate is zero, a positive number or, for a numeral beyond the
    range of a float, infinity. *)
Theorem amounts_not_negative (text : str) (banks : option (list str))
  (c : amount_info) :
  In c (extract_amounts text banks) -> nonneg_float (amount c).
Proof.
  intros H.
  assert (Hc : forall s mk, (forall a, amount (mk a) = a) ->
                 In c (candidate s mk) -> nonneg_float (amount c)).
  { intros s mk Hmk Hin. apply candidate_In_float in Hin.
    destruct Hin as (a & Ea & ->). rewrite Hmk.
    apply (of_str_nonneg s a Ea). }
  destruct (extract_amounts_split text banks) as [[_ E]|[_ E]];
    rewrite E in H.
  - apply in_app_or in H. destruct H as [H|H];
      [|apply in_app_or in H; destruct H as [H|H]];
      apply in_flat_map in H; destruct H as (m & _ & H).
    + eapply Hc; [|exact H]. reflexivity.
    + eapply Hc; [|exact H]. reflexivity.
    + destruct (is_colombian_bank banks); (eapply Hc; [|exact H]);
        reflexivity.
  - apply in_flat_map in H. destruct H as (m & _ & H).
    eapply Hc; [|exact H]. reflexivity.
Qed.

Lemma amounts_not_negative_witness :
  nonneg_float (amount cop_51558).
Proof.
  apply (amounts_not_negative (lit "COP 51.558,00") None).
  vm_compute. left. reflexivity.
Defined.

(** ** Warnings *)

Lemma validate_warnings (t : transaction_t) :
  warnings (validate_transaction t)
  = (if is_empty (dates t) then [lit "No dates detected"] else [])
    ++ (if Py.eqb (transaction_type t) (lit "UNKNOWN")
        then [lit "Could not determine transaction type"] else [])
    ++ (if is_empty (reference_numbers t)
        then [lit "No reference numbers detected"] else [])
    ++ (if 5 <? List.length (amounts t)
        then [lit "Multiple amounts detected ("
              ++ str_of_nat (List.length (amounts t)) ++ lit ")"]
        else []).
Proof.
  unfold validate_transaction.
  destruct (is_empty (amounts t)), (is_empty (dates t)),
    (Py.eqb (transaction_type t) (lit "UNKNOWN")),
    (is_empty (reference_numbers t)), (5 <? List.length (amounts t));
    reflexivity.
Qed.

(** X7: the validator emits no warning exactly when the record has a
    date, a reference number, a known type and at most five amounts; it
    emits at most four, and the warning about many amounts, which states
    their number, exactly when there are more than five. *)
Theorem validator_warnings (t : transaction_t) :
  let v := validate_transaction t in
  let n := List.length (amounts t) in
  (warnings v = []
   <-> dates t <> [] /\ transaction_type t <> lit "UNKNOWN"
       /\ reference_numbers t <> [] /\ n <= 5)
  /\ (In (lit "Multiple amounts detected (" ++ str_of_nat n ++ lit ")")
         (warnings v) <-> 5 < n)
  /\ List.length (warnings v) <= 4.
Proof.
  cbv zeta. rewrite validate_warnings.
  set (n := List.length (amounts t)).
  set (A := if is_empty (dates t) then [lit "No dates detected"] else []).
  set (B := if Py.eqb (transaction_type t) (lit "UNKNOWN")
            then [lit "Could not determine transaction type"] else []).
  set (C := if is_empty (reference_numbers t)
            then [lit "No reference numbers detected"] else []).
  set (D := if 5 <? n then [_] else []).
  assert (HA : A = [] <-> dates t <> []).
  { subst A. destruct (dates t); simpl; split; congruence. }
  assert (HB : B = [] <-> transaction_type t <> lit "UNKNOWN").
  { subst B. destruct (Py.eqb (transaction_type t) (lit "UNKNOWN")) eqn:E.
    - apply Py_eqb_eq in E. split; congruence.
    - split; [|reflexivity]. intros _ H. apply Py_eqb_eq in H. congruence. }
  assert (HC : C = [] <-> reference_numbers t <> []).
  { subst C. destruct (reference_numbers t); simpl; split; congruence. }
  assert (HD : D = [] <-> n <= 5).
  { subst D. destruct (5 <? n) eqn:E.
    - apply Nat.ltb_lt in E. split; [discriminate|lia].
    - apply Nat.ltb_ge in E. tauto. }
  split; [|split].
  - split.
    + intros H. apply app_eq_nil in H. destruct H as [H1 H].
      apply app_eq_nil in H. destruct H as [H2 H].
      apply app_eq_nil in H. destruct H as [H3 H4]. tauto.
    + intros (H1 & H2 & H3 & H4).
      apply HA in H1. apply HB in H2. apply HC in H3. apply HD in H4.
      rewrite H1, H2, H3, H4. reflexivity.
  - split.
    + intros H. apply in_app_or in H. destruct H as [H|H];
        [|apply in_app_or in H; destruct H as [H|H];
          [|apply in_app_or in H; destruct H as [H|H]]].
      * subst A. destruct (is_empty (dates t)); simpl in H;
          [destruct H as [H|[]]; discriminate H|contradiction].
      * subst B. destruct (Py.eqb _ _); simpl in H;
          [destruct H as [H|[]]; discriminate H|contradiction].
      * subst C. destruct (is_empty (reference_numbers t)); simpl in H;
          [destruct H as [H|[]]; discriminate H|contradiction].
      * subst D. destruct (5 <? n) eqn:E; [|contradiction].
        apply Nat.ltb_lt in E. exact E.
    + intros H. apply in_or_app. right. apply in_or_app. right.
      apply in_or_app. right. subst D.
      replace (5 <? n) with true by (symmetry; apply Nat.ltb_lt; exact H).
      left. reflexivity.
  - rewrite !length_app.
    assert (List.length A <= 1)
      by (unfold A; destruct (is_empty (dates t)); simpl; lia).
    assert (List.length B <= 1)
      by (unfold B; destruct (Py.eqb _ _); simpl; lia).
    assert (List.length C <= 1)
      by (unfold C; destruct (is_empty (reference_numbers t)); simpl; lia).
    assert (List.length D <= 1)
      by (unfold D; destruct (5 <? n); simpl; lia).
    lia.
Qed.

(** ** Detected banks *)

Lemma bank_names_members (set_order : list str -> list str)
  (annotations : annotations_t) (b : str) :
  iteration_order set_order ->
  NoDup (extract_bank_names set_order annotations)
  /\ (In b (extract_bank_names set_order annotations)
      <-> (exists logos e, logoAnnotations annotations = Some logos
                           /\ In e logos /\ b = get_description e)
          \/ (exists first others,
                textAnnotations annotations = Some (first :: others)
                /\ In b common_banks
                /\ contains (lower b) (lower (get_description first)) = true)).
Proof.
  intros Ho.
  set (L := match logoAnnotations annotations with
            | Some logos => map get_description logos
            | None => []
            end).
  set (Tm := match textAnnotations annotations with
             | Some (first :: _) =>
                 filter (fun bank =>
                           contains (lower bank) (lower (get_description first)))
                        common_banks
             | _ => []
             end).
  assert (E : extract_bank_names set_order annotations = set_order (L ++ Tm)).
  { unfold extract_bank_names, L, Tm. cbn [app].
    destruct (logoAnnotations annotations);
      destruct (textAnnotations annotations) as [[|first others]|];
      cbn [app]; rewrite ?app_nil_r; reflexivity. }
  rewrite E. destruct (Ho (L ++ Tm)) as [Hn Hi]. split; [exact Hn|].
  rewrite Hi, in_app_iff.
  assert (HL : In b L <-> exists logos e,
                 logoAnnotations annotations = Some logos
                 /\ In e logos /\ b = get_description e).
  { unfold L. destruct (logoAnnotations annotations) as [logos|].
    - rewrite in_map_iff. split.
      + intros (e & <- & He). eauto.
      + intros (logos' & e & El & He & ->). inversion El; subst. eauto.
    - split; [intros []|]. intros (logos' & e & El & _). discriminate. }
  assert (HT : In b Tm <-> exists first others,
                 textAnnotations annotations = Some (first :: others)
                 /\ In b common_banks
                 /\ contains (lower b) (lower (get_description first)) = true).
  { unfold Tm. destruct (textAnnotations annotations) as [[|first others]|].
    - split; [intros []|]. intros (f & o & Et & _). discriminate.
    - rewrite filter_In. split.
      + intros (Hb & Hc). eauto.
      + intros (f & o & Et & Hb & Hc). inversion Et; subst. auto.
    - split; [intros []|]. intros (f & o & Et & _). discriminate. }
  rewrite HL, HT. reflexivity.
Qed.

Lemma bank_names_characterised_aux (set_order : list str -> list str)
  (annotations : annotations_t) (b : str) :
  iteration_order set_order ->
  In b (extract_bank_names set_order annotations)
  <-> (exists logos e, logoAnnotations annotations = Some logos
                       /\ In e logos /\ b = get_description e)
      \/ (exists first others,
            textAnnotations annotations = Some (first :: others)
            /\ In b common_banks
            /\ contains (lower b) (lower (get_description first)) = true).
Proof. intros Ho. apply (bank_names_members set_order annotations b Ho). Qed.

(** X8: the list of detected banks has no duplicates, and a name is in it
    exactly when it is the description of a logo, or a name of the fixed
    list that occurs, in any case, in the recognised text. *)
Theorem bank_names_characterised (set_order : list str -> list str)
  (annotations : annotations_t) (b : str) :
  iteration_order set_order ->
  NoDup (extract_bank_names set_order annotations)
  /\ (In b (extract_bank_names set_order annotations)
      <-> (exists logos e, logoAnnotations annotations = Some logos
                           /\ In e logos /\ b = get_description e)
          \/ (exists first others,
                textAnnotations annotations = Some (first :: others)
                /\ In b common_banks
                /\ contains (lower b) (lower (get_description first)) = true)).
Proof.
  intros Ho. apply (bank_names_members set_order annotations b Ho).
Qed.

Lemma bank_names_characterised_witness :
  In (lit "Davivienda")
     (extract_bank_names order_first_seen
        (Annotations (Some [Entry (Some (lit "pago DAVIVIENDA"))]) None None)).
Proof.
  apply (bank_names_characterised order_first_seen _ (lit "Davivienda")
           order_first_seen_ok).
  right. exists (Entry (Some (lit "pago DAVIVIENDA"))), [].
  repeat split; vm_compute; auto 10.
Defined.

Lemma colombian_names_of_common_banks :
  COLOMBIAN_BANKS = map lower (firstn 11 common_banks).
Proof. vm_compute. reflexivity. Qed.

Lemma registry_has_common_name (r : str) :
  In r COLOMBIAN_BANKS -> exists b, In b common_banks /\ lower b = r.
Proof.
  rewrite colombian_names_of_common_banks, in_map_iff.
  intros (b & E & Hb). exists b. split; [|exact E].
  rewrite <- (firstn_skipn 11 common_banks). apply in_or_app. auto.
Qed.

(** X9: the flag that makes [$] amounts Colombian is set for a document
    exactly when a logo is described by a name of the registry, in any
    case, or the recognised text holds a name of the registry, in any
    case; the names of other banks, such as "Santander" or "Chase", never
    set it. *)
Theorem document_is_colombian_iff (set_order : list str -> list str)
  (annotations : annotations_t) :
  iteration_order set_order ->
  (is_colombian_bank (Some (extract_bank_names set_order annotations)) = true
   <-> (exists logos e, logoAnnotations annotations = Some logos
                        /\ In e logos
                        /\ In (lower (get_description e)) COLOMBIAN_BANKS)
       \/ (exists first others r,
             textAnnotations annotations = Some (first :: others)
             /\ In r COLOMBIAN_BANKS
             /\ contains r (lower (get_description first)) = true)).
Proof.
  intros Ho. unfold is_colombian_bank. rewrite existsb_exists.
  split.
  - intros (b & Hb & Hr). apply in_set_In in Hr.
    apply (bank_names_characterised_aux set_order annotations b Ho) in Hb.
    destruct Hb as [(logos & e & El & He & ->)|(f & o & Et & Hb & Hc)].
    + left. eauto.
    + right. exists f, o, (lower b). auto.
  - intros [(logos & e & El & He & Hr)|(f & o & r & Et & Hr & Hc)].
    + exists (get_description e). split; [|apply in_set_In; exact Hr].
      apply (bank_names_characterised_aux set_order annotations _ Ho).
      left. eauto.
    + destruct (registry_has_common_name r Hr) as (b & Hb & <-).
      exists b. split; [|apply in_set_In; exact Hr].
      apply (bank_names_characterised_aux set_order annotations _ Ho).
      right. eauto.
Qed.

Lemma document_is_colombian_iff_witness :
  is_colombian_bank
    (Some (extract_bank_names order_first_seen
             (Annotations (Some [Entry (Some (lit "pago DAVIVIENDA"))])
                          None None)))
  = true.
Proof.
  apply (document_is_colombian_iff order_first_seen _ order_first_seen_ok).
  right. exists (Entry (Some (lit "pago DAVIVIENDA"))), [], (lit "davivienda").
  repeat split; vm_compute; auto 10.
Defined.

(** ** A document without text *)

(** X10: when no text is recognised (the key [textAnnotations] missing,
    its list empty, or its first entry without a description), every field
    extracted from the text is empty, the type is UNKNOWN, and validation
    reports the missing amounts as its one error next to three warnings,
    whatever logos and labels the document has. *)
Theorem empty_text_record (set_order : list str -> list str)
  (data : document) :
  let t := parse_transaction set_order data in
  raw_text t = [] ->
  amounts t = [] /\ dates t = [] /\ time t = None /\ merchant t = None
  /\ card_info t = None /\ reference_numbers t = []
  /\ account_numbers t = [] /\ transaction_type t = lit "UNKNOWN"
  /\ validate_transaction t
     = Validation false
         [lit "No dates detected";
          lit "Could not determine transaction type";
          lit "No reference numbers detected"]
         [lit "No monetary amounts detected"].
Proof.
  cbv zeta. unfold parse_transaction. cbn [raw_text]. intros ->.
  assert (Ha : forall banks, extract_amounts [] banks = []).
  { intros banks. apply extract_amounts_no_digit. constructor. }
  cbn [amounts dates time merchant card_info reference_numbers
       account_numbers transaction_type].
  rewrite Ha. repeat split.
Qed.

Lemma empty_text_record_witness :
  validate_transaction
    (parse_transaction order_first_seen
       (Document (Some [])
          (Annotations None (Some [Entry (Some (lit "Bancolombia"))]) None)))
  = Validation false
      [lit "No dates detected";
       lit "Could not determine transaction type";
       lit "No reference numbers detected"]
      [lit "No monetary amounts detected"].
Proof.
  apply (empty_text_record order_first_seen). reflexivity.
Defined.

(** ** Card data *)

Lemma Match_ends_with_span (ic : bool) (g r : regex) :
  ends_with g r ->
  forall a b, Match ic r a b ->
    exists m w, Match ic g m b /\ rest a = w ++ rest m.
Proof.
  induction r; simpl; intros [E|H] a b HM;
    try (subst g; exists a, []; split; [exact HM|reflexivity]);
    try contradiction.
  destruct HM as (m & H1 & H2).
  destruct (IHr2 H _ _ H2) as (x & w & Hx & Ew).
  destruct (Match_span ic r1 a m H1) as (w1 & E1 & _).
  exists x, (w1 ++ w). rewrite <- app_assoc, <- Ew. auto.
Qed.

Lemma first_match_suffix (ic : bool) (patterns : list regex) (text : str)
  (pattern : regex) (m : match_obj) :
  first_match ic patterns text = Some (pattern, m) ->
  In pattern patterns
  /\ exists p pre s, text = pre ++ s /\ match_here ic pattern p s = Some m.
Proof.
  induction patterns as [|r rs IH]; simpl; [discriminate|].
  destruct (search ic r text) eqn:E.
  - intros H. inversion H; subst. split; auto.
    apply search_from_suffix in E. destruct E as (p & pre & s & -> & E). eauto.
  - intros H. apply IH in H. tauto.
Qed.

Lemma sym_asterisk_exact (c : ascii) :
  sym_match true [IChar "*"%char] c = true -> c = "*"%char.
Proof.
  destruct c as [[] [] [] [] [] [] [] []]; vm_compute; intros H;
    first [discriminate H | reflexivity].
Qed.

(** An asterisk and a group of four digits at the end of a pattern. *)
Lemma Match_masked_digits (i : nat) (a b : mstate) :
  Match true (Seq (Sym [IChar "*"%char]) (Grp i (exactly 4 digit))) a b ->
  exists w, lookup i (caps b) = Some w /\ List.length w = 4
            /\ Forall (fun c => is_digit c = true) w
            /\ rest a = "*"%char :: w ++ rest b.
Proof.
  intros (m1 & (c & s & Ea & Hc & ->) & Hg).
  apply sym_asterisk_exact in Hc. subst c.
  pose proof (Match_digits_group true i 4 _ _ Hg) as (w & Hl & Hlen & Hd).
  destruct Hg as (x & Hx & ->).
  destruct (Match_consumed true (fun _ => True) _ _ x
              (syms_sat_True true _) Hx) as (Ec & _ & _).
  cbn [caps lookup] in Hl. rewrite Nat.eqb_refl in Hl.
  injection Hl as <-. cbn [rest] in Ec |- *.
  exists (consumed (MState (S (pos a)) (Some "*"%char) s (caps a)) x).
  cbn [caps lookup]. rewrite Nat.eqb_refl.
  repeat split; auto. rewrite Ea. f_equal. exact Ec.
Qed.

Lemma card_patterns_end (pattern : regex) :
  In pattern card_patterns ->
  exists i,
    ends_with (Seq (Sym [IChar "*"%char]) (Grp i (exactly 4 digit))) pattern
    /\ (if ngroups pattern =? 2 then i = 2 else i = 1).
Proof.
  intros [<-|[<-|[<-|[]]]];
    [exists 2|exists 2|exists 1]; split; try reflexivity; simpl; tauto.
Qed.

(** X11: whenever card data is returned, [last4] consists of exactly four
    digits, and they are the four characters that follow an asterisk in
    the text. *)
Theorem card_last4_four_digits (text : str) (ci : card_info_t) :
  extract_card_info text = Some ci ->
  List.length (last4 ci) = 4
  /\ Forall (fun c => is_digit c = true) (last4 ci)
  /\ occurs_in ("*"%char :: last4 ci) text.
Proof.
  unfold extract_card_info.
  destruct (first_match true card_patterns text) as [[pattern m]|] eqn:E;
    [|discriminate].
  apply first_match_suffix in E. destruct E as (Hin & p & pre & s & -> & E).
  apply match_here_sound in E. destruct E as (st & HM & ->).
  destruct (card_patterns_end pattern Hin) as (i & He & Hi).
  destruct (Match_ends_with_span true _ _ He _ _ HM) as (x & w0 & Hx & Ew).
  apply Match_masked_digits in Hx.
  destruct Hx as (w & Hl & Hlen & Hd & Er).
  cbn [rest] in Ew.
  assert (Ho : occurs_in ("*"%char :: w) (pre ++ s)).
  { exists (pre ++ w0), (rest st). rewrite Ew, Er, <- app_assoc. reflexivity. }
  assert (Hg : group_str i (MatchObj s (pos st) (caps st)) = w).
  { unfold group_str, group. cbn [m_caps]. rewrite Hl. reflexivity. }
  destruct (ngroups pattern =? 2); subst i; intros H; inversion H; subst ci;
    cbn [last4]; rewrite Hg; auto.
Qed.

Lemma card_last4_four_digits_witness :
  List.length (lit "9095") = 4
  /\ Forall (fun c => is_digit c = true) (lit "9095")
  /\ occurs_in ("*"%char :: lit "9095") (lit "con T.Cred *90951234 hoy").
Proof.
  apply (card_last4_four_digits (lit "con T.Cred *90951234 hoy")
           (CardInfo (lit "Credit Card") (lit "9095"))).
  vm_compute. reflexivity.
Defined.

(** ** The shape of a time *)

Lemma rstrip_snoc_nonspace (s : str) (z : ascii) :
  is_space z = false -> rstrip (s ++ [z]) = s ++ [z].
Proof.
  intros Hz. unfold rstrip. rewrite rev_app_distr. cbn [rev app lstrip].
  rewrite Hz. cbn [rev]. rewrite rev_involutive. reflexivity.
Qed.

Lemma rstrip_snoc_space (s : str) (z : ascii) :
  is_space z = true -> rstrip (s ++ [z]) = rstrip s.
Proof.
  intros Hz. unfold rstrip. rewrite rev_app_distr. cbn [rev app lstrip].
  rewrite Hz. reflexivity.
Qed.

Lemma digit_not_space (c : ascii) : is_digit c = true -> is_space c = false.
Proof.
  destruct c as [[] [] [] [] [] [] [] []]; vm_compute; congruence.
Qed.

Lemma low_digit_is_digit (hi : N) (c : ascii) :
  (hi <= 57)%N -> between 48 hi c = true -> is_digit c = true.
Proof.
  unfold is_digit, between. intros Hhi H.
  apply andb_true_iff in H. destruct H as [H1 H2].
  apply N.leb_le in H2. rewrite H1. apply N.leb_le. lia.
Qed.

Lemma sym_range_false (lo hi : ascii) (c : ascii) :
  sym_match false [IRange lo hi] c = between (code lo) (code hi) c.
Proof. simpl. rewrite !orb_false_r. reflexivity. Qed.

Lemma Match_hour (a b : mstate) :
  Match false (Grp 1 (Seq (opt (Sym [range "0" "2"])) digit)) a b ->
  exists h, caps b = (1, h) :: caps a /\ hour_text h.
Proof.
  intros (m & H & ->).
  destruct (Match_consumed false (fun _ => True) _ a m (syms_sat_True false _) H)
    as (Ec & _ & _).
  pose proof (Match_caps_plain false
                (Seq (opt (Sym [range "0" "2"])) digit) eq_refl _ _ H) as Hcm.
  exists (consumed a m). split; [cbn [caps]; rewrite Hcm; reflexivity|].
  clear Hcm.
  destruct H as (m1 & (k & _ & Hk & H1) & (d & s & Em1 & Hd & ->)).
  rewrite sym_digit in Hd. simpl in Hk. cbn [rest caps] in *.
  destruct H1 as [st|k a0 x m1 Hax _ H1].
  - left. exists d. split; [|exact Hd].
    apply (app_inv_tail s). rewrite <- Ec. exact Em1.
  - destruct H1 as [st|k x0 y m1' _ _ _]; [|lia].
    destruct Hax as (c & s' & Ea & Hc & ->).
    change (range "0" "2") with (IRange "0"%char "2"%char) in Hc.
    rewrite sym_range_false in Hc. cbn [rest caps] in *.
    right. exists c, d. repeat split; [|exact Hc|exact Hd].
    apply (app_inv_tail s). rewrite <- Ec, Ea, Em1. reflexivity.
Qed.

Lemma Match_minute (a b : mstate) :
  Match false (Grp 2 (Seq (Sym [range "0" "5"]) digit)) a b ->
  exists m, caps b = (2, m) :: caps a /\ minute_text m.
Proof.
  intros (x & H & ->).
  destruct (Match_consumed false (fun _ => True) _ a x (syms_sat_True false _) H)
    as (Ec & _ & _).
  pose proof (Match_caps_plain false
                (Seq (Sym [range "0" "5"]) digit) eq_refl _ _ H) as Hcm.
  exists (consumed a x). split; [cbn [caps]; rewrite Hcm; reflexivity|].
  clear Hcm.
  destruct H as (m1 & (c & s' & Ea & Hc & ->) & (d & s & Em1 & Hd & ->)).
  change (range "0" "5") with (IRange "0"%char "5"%char) in Hc.
  rewrite sym_range_false in Hc. rewrite sym_digit in Hd.
  cbn [rest caps] in *.
  exists c, d. repeat split; [|exact Hc|exact Hd].
  apply (app_inv_tail s). rewrite <- Ec, Ea, Em1. reflexivity.
Qed.

Lemma sym_char_false (x c : ascii) :
  sym_match false [IChar x] c = true -> c = x.
Proof.
  simpl. rewrite orb_false_r. apply Ascii.eqb_eq.
Qed.

Lemma Match_two_letters (x y : ascii) (a b : mstate) :
  Match false (Seq (Sym [IChar x]) (Seq (Sym [IChar y]) Eps)) a b ->
  rest a = x :: y :: rest b /\ pos b = S (S (pos a)).
Proof.
  intros (m1 & (c1 & s1 & Ea & H1 & ->) & m2 & (c2 & s2 & E1 & H2 & ->) & ->).
  apply sym_char_false in H1, H2. subst. cbn [rest pos] in *.
  rewrite Ea, E1. auto.
Qed.

Lemma Match_meridiem (a b : mstate) :
  Match false
    (opt (Grp 3 (alt (map word [ "AM"; "PM"; "am"; "pm" ]%string)))) a b ->
  caps b = caps a
  \/ exists w, caps b = (3, w) :: caps a
               /\ In w [lit "AM"; lit "PM"; lit "am"; lit "pm"].
Proof.
  intros (k & _ & Hk & H). simpl in Hk.
  destruct H as [st|k a0 x b0 Hax _ H]; [left; reflexivity|].
  destruct H as [st|k x0 y b0' _ _ _]; [|lia].
  right. destruct Hax as (m & Hm & ->). cbn [caps].
  pose proof (Match_caps_plain false
                (alt (map word [ "AM"; "PM"; "am"; "pm" ]%string))
                eq_refl _ _ Hm) as Hcm.
  exists (consumed a0 m). split; [rewrite Hcm; reflexivity|]. clear Hcm.
  assert (Hw : forall u v, rest a0 = u :: v :: rest m ->
                 pos m = S (S (pos a0)) -> consumed a0 m = [u; v]).
  { intros u v Er Hp. unfold consumed. rewrite Hp, Er.
    replace (S (S (pos a0)) - pos a0) with 2 by lia. reflexivity. }
  destruct Hm as [Hm|[Hm|[Hm|Hm]]]; apply Match_two_letters in Hm;
    destruct Hm as [Er Hp]; rewrite (Hw _ _ Er Hp); simpl; auto.
Qed.

Lemma strip_time (h m mer : str) :
  hour_text h -> minute_text m ->
  (mer = [] \/ exists mer0 z, mer = mer0 ++ [z] /\ is_space z = false) ->
  strip (h ++ lit ":" ++ m ++ lit " " ++ mer)
  = h ++ ":"%char :: m
    ++ match mer with [] => [] | _ => " "%char :: mer end.
Proof.
  intros Hh (c & d & -> & Hc & Hd) Hmer.
  assert (Hhead : exists x h', h = x :: h' /\ is_space x = false).
  { destruct Hh as [(x & -> & Hx)|(x & y & -> & Hx & Hy)].
    - exists x, []. split; [reflexivity|]. apply digit_not_space, Hx.
    - exists x, [y]. split; [reflexivity|].
      apply digit_not_space, (low_digit_is_digit 50); [lia|exact Hx]. }
  destruct Hhead as (x & h' & -> & Hx).
  unfold strip. cbn [lit list_ascii_of_string app lstrip]. rewrite Hx.
  destruct Hmer as [->|(mer0 & z & -> & Hz)].
  - replace (x :: h' ++ ":"%char :: c :: d :: [" "%char])
      with (((x :: h' ++ ":"%char :: [c]) ++ [d]) ++ [" "%char])
      by (cbn [app]; rewrite <- !app_assoc; reflexivity).
    rewrite rstrip_snoc_space by reflexivity.
    rewrite rstrip_snoc_nonspace by (apply digit_not_space, Hd).
    cbn [app]. rewrite <- app_assoc. reflexivity.
  - replace (x :: h' ++ ":"%char :: c :: d :: " "%char :: mer0 ++ [z])
      with ((x :: h' ++ ":"%char :: c :: d :: " "%char :: mer0) ++ [z])
      by (cbn [app]; rewrite <- app_assoc; reflexivity).
    rewrite rstrip_snoc_nonspace by exact Hz.
    cbn [app]. rewrite <- app_assoc. cbn [app].
    destruct (mer0 ++ [z]) eqn:E; [destruct mer0; discriminate|].
    reflexivity.
Qed.

(** X12: a time returned is an hour of one or two digits, a colon, a
    minute of two digits, and then nothing, a space and AM, PM, am or pm,
    or a space and the word None. *)
Theorem time_shape (text t : str) :
  extract_time text = Some t ->
  exists h m sfx,
    t = h ++ ":"%char :: m ++ sfx /\ hour_text h /\ minute_text m
    /\ In sfx [[]; lit " None"; lit " AM"; lit " PM"; lit " am"; lit " pm"].
Proof.
  unfold extract_time.
  destruct (first_match false time_patterns text) as [[pattern mo]|] eqn:E;
    [|discriminate].
  apply first_match_sound in E. destruct E as (Hin & p & s & E).
  apply match_here_sound in E. destruct E as (st & HM & ->).
  intros H. injection H as <-.
  destruct Hin as [<-|[<-|[]]].
  - destruct HM as (m1 & [_ ->] & m2 & H1 & m3 & Hc & m4 & H2 & m5 & Hs
                    & m6 & H3 & [_ ->]).
    apply Match_hour in H1. destruct H1 as (h & C2 & Hh).
    pose proof (Match_caps_plain false (chr ":") eq_refl _ _ Hc) as C3.
    apply Match_minute in H2. destruct H2 as (m & C4 & Hm).
    pose proof (Match_caps_plain false (star space) eq_refl _ _ Hs) as C5.
    apply Match_meridiem in H3.
    cbn [caps] in C2. rewrite C3, C2 in C4. rewrite C4 in C5.
    match goal with
    | |- context [ngroups ?r] =>
        let n := eval vm_compute in (ngroups r) in change (ngroups r) with n
    end.
    cbn [Nat.leb]. unfold group_str, group. cbn [m_caps].
    exists h, m.
    destruct H3 as [C6|(w & C6 & Hw)]; rewrite C6, C5; cbn [lookup Nat.eqb].
    + exists (lit " None").
      assert (Es := strip_time h m (lit "None") Hh Hm
                      (or_intror (ex_intro _ (lit "Non")
                         (ex_intro _ "e"%char (conj eq_refl eq_refl))))).
      split; [etransitivity; [exact Es|reflexivity]|simpl; auto].
    + exists (" "%char :: w).
      assert (Hz : exists mer0 z, w = mer0 ++ [z] /\ is_space z = false).
      { simpl in Hw.
        destruct Hw as [<-|[<-|[<-|[<-|[]]]]];
          [exists (lit "A"), "M"%char|exists (lit "P"), "M"%char
          |exists (lit "a"), "m"%char|exists (lit "p"), "m"%char];
          split; reflexivity. }
      assert (Es := strip_time h m w Hh Hm (or_intror Hz)).
      split; [|split; [exact Hh|split; [exact Hm|]]].
      * etransitivity; [exact Es|].
        simpl in Hw. destruct Hw as [<-|[<-|[<-|[<-|[]]]]]; reflexivity.
      * simpl in Hw. destruct Hw as [<-|[<-|[<-|[<-|[]]]]]; simpl; auto 10.
  - destruct HM as (m1 & Ha & m2 & Hs1 & m3 & Hl & m4 & Hs2 & m5 & H1
                    & m6 & Hc & H2).
    pose proof (Match_caps_plain false (chr "a") eq_refl _ _ Ha) as C1.
    pose proof (Match_caps_plain false (plus space) eq_refl _ _ Hs1) as C2.
    pose proof (Match_caps_plain false (word "las") eq_refl _ _ Hl) as C3.
    pose proof (Match_caps_plain false (plus space) eq_refl _ _ Hs2) as C4.
    apply Match_hour in H1. destruct H1 as (h & C5 & Hh).
    pose proof (Match_caps_plain false (chr ":") eq_refl _ _ Hc) as C6.
    apply Match_minute in H2. destruct H2 as (m & C7 & Hm).
    cbn [caps] in C1. rewrite C4, C3, C2, C1 in C5. rewrite C6, C5 in C7.
    match goal with
    | |- context [ngroups ?r] =>
        let n := eval vm_compute in (ngroups r) in change (ngroups r) with n
    end.
    cbn [Nat.leb]. unfold group_str, group. cbn [m_caps]. rewrite C7.
    cbn [lookup Nat.eqb].
    exists h, m, [].
    assert (Es := strip_time h m [] Hh Hm (or_introl eq_refl)).
    split; [etransitivity; [exact Es|reflexivity]|].
    repeat split; auto. simpl. auto.
Qed.

Lemma time_shape_witness :
  exists h m sfx,
    lit "8:33 PM" = h ++ ":"%char :: m ++ sfx /\ hour_text h /\ minute_text m
    /\ In sfx [[]; lit " None"; lit " AM"; lit " PM"; lit " am"; lit " pm"].
Proof.
  apply (time_shape (lit "Retiro 8:33 PM cajero")). vm_compute. reflexivity.
Defined.

(** ** Transaction types *)

Lemma any_keyword_false (keywords : list str) (text_lower : str) :
  any_keyword keywords text_lower = false
  <-> forall k, In k keywords -> contains k text_lower = false.
Proof.
  unfold any_keyword. induction keywords as [|k ks IH]; simpl.
  - split; [intros _ k []|reflexivity].
  - rewrite orb_false_iff, IH. split.
    + intros [H1 H2] x [<-|Hx]; auto.
    + intros H. split; [apply H; auto|]. intros x Hx. apply H. auto.
Qed.

Lemma any_keyword_false_not_true (keywords : list str) (text_lower : str) :
  any_keyword keywords text_lower = true ->
  (forall k, In k keywords -> contains k text_lower = false) -> False.
Proof.
  intros H Hf. apply any_keyword_false in Hf. congruence.
Qed.

(** X13: the type is always one of seven labels, never missing, and it is
    UNKNOWN exactly when the lower-cased text holds none of the 22
    keywords. *)
Theorem type_unknown_iff_no_keyword (text : str) :
  In (detect_transaction_type text)
     [lit "PURCHASE"; lit "WIRE_TRANSFER"; lit "WITHDRAWAL"; lit "DEPOSIT";
      lit "PAYMENT"; lit "ACH_TRANSFER"; lit "UNKNOWN"]
  /\ (detect_transaction_type text = lit "UNKNOWN"
      <-> forall k, In k type_keywords -> contains k (lower text) = false).
Proof.
  unfold detect_transaction_type.
  set (tl := lower text).
  destruct (any_keyword [lit "compraste"; lit "compra"; lit "purchase"] tl)
    eqn:E1;
  [|destruct (any_keyword [lit "transferiste"; lit "transferencia";
                           lit "wire transfer"; lit "wire"] tl) eqn:E2;
    [|destruct (any_keyword [lit "retiraste"; lit "retiro"; lit "withdrawal";
                             lit "withdraw"; lit "atm"] tl) eqn:E3;
      [|destruct (any_keyword [lit "depositaste";
                               lit "dep" ++ o_acute :: lit "sito";
                               lit "deposit"; lit "deposited"] tl) eqn:E4;
        [|destruct (any_keyword [lit "pagaste"; lit "pago"; lit "payment";
                                 lit "paid"] tl) eqn:E5;
          [|destruct (any_keyword [lit "ach"; lit "electronic transfer"] tl)
              eqn:E6]]]]];
    (split; [simpl; auto 10|]).
  all: try (split; [discriminate|]; intros H; exfalso;
            first [apply any_keyword_false_not_true in E1
                  |apply any_keyword_false_not_true in E2
                  |apply any_keyword_false_not_true in E3
                  |apply any_keyword_false_not_true in E4
                  |apply any_keyword_false_not_true in E5
                  |apply any_keyword_false_not_true in E6];
            [assumption|];
            intros k Hk; apply H; unfold type_keywords;
            cbn [In] in Hk |- *; tauto).
  split; [|reflexivity]. intros _ k Hk.
  rewrite any_keyword_false in E1, E2, E3, E4, E5, E6.
  unfold type_keywords in Hk. cbn [In] in Hk.
  repeat (destruct Hk as [<-|Hk];
          [first [apply E1; cbn [In]; tauto|apply E2; cbn [In]; tauto
                 |apply E3; cbn [In]; tauto|apply E4; cbn [In]; tauto
                 |apply E5; cbn [In]; tauto|apply E6; cbn [In]; tauto]|]).
  contradiction.
Qed.

(** ** Dollar numerals that do not convert *)

Lemma eqb_digit_separator (x : ascii) :
  is_digit x = true ->
  Ascii.eqb x period = false /\ Ascii.eqb x comma = false
  /\ Ascii.eqb period x = false /\ Ascii.eqb comma x = false.
Proof.
  destruct x as [[] [] [] [] [] [] [] []]; vm_compute; intros H;
    first [discriminate H | repeat split].
Qed.

Lemma count_char_app (c : ascii) (s1 s2 : str) :
  count_char c (s1 ++ s2) = count_char c s1 + count_char c s2.
Proof. unfold count_char. rewrite filter_app, length_app. reflexivity. Qed.

Lemma count_char_cons (c x : ascii) (s : str) :
  count_char c (x :: s)
  = (if Ascii.eqb c x then 1 else 0) + count_char c s.
Proof. unfold count_char. simpl. destruct (Ascii.eqb c x); reflexivity. Qed.

Lemma replace_char_cons (c : ascii) (new : str) (x : ascii) (s : str) :
  replace_char c new (x :: s)
  = (if Ascii.eqb x c then new else [x]) ++ replace_char c new s.
Proof. reflexivity. Qed.

Lemma has_char_cons (c x : ascii) (s : str) :
  has_char c (x :: s) = (Ascii.eqb c x || has_char c s)%bool.
Proof. reflexivity. Qed.

Ltac sep_simpl :=
  repeat (progress (change (Ascii.eqb period comma) with false;
                    change (Ascii.eqb comma period) with false;
                    change (Ascii.eqb period period) with true;
                    change (Ascii.eqb comma comma) with true;
                    cbn [replace_char flat_map app orb Nat.add];
                    rewrite ?count_char_cons)).

(** What the replacements of the dollar rule make of a numeral. *)
Lemma numeral_chars_replaced (w : str) :
  Forall (fun x => is_digit x = true \/ x = period \/ x = comma) w ->
  (Forall (fun x => is_digit x = true \/ x = period) (replace_char comma [] w)
   /\ count_char period (replace_char comma [] w) = count_char period w)
  /\ (Forall (fun x => is_digit x = true \/ x = period) (cop_amount_str w)
      /\ count_char period (cop_amount_str w) = count_char comma w)
  /\ (has_char period w = false ->
      Forall (fun x => is_digit x = true \/ x = period)
             (replace_char comma [period] w)
      /\ count_char period (replace_char comma [period] w)
         = count_char comma w)
  /\ (has_char comma w = false ->
      Forall (fun x => is_digit x = true \/ x = period) w
      /\ count_char comma w = 0
      /\ Forall (fun x => is_digit x = true) (replace_char period [] w)).
Proof.
  unfold cop_amount_str.
  induction 1 as [|x w Hx Hw IH].
  - repeat split; intros; constructor.
  - destruct IH as ((A1 & A2) & (B1 & B2) & C & D).
    rewrite !replace_char_cons, !replace_char_app, !count_char_cons,
      !has_char_cons.
    destruct Hx as [Hx|[->| ->]].
    + destruct (eqb_digit_separator x Hx) as (E1 & E2 & E3 & E4).
      rewrite E1, E2, E3, E4. cbn [replace_char flat_map app orb].
      rewrite E2. cbn [app]. rewrite !count_char_cons, E3. cbn [Nat.add].
      repeat split; auto;
        match goal with
        | H : has_char period w = false |- _ => destruct (C H) as (? & ?)
        | H : has_char comma w = false |- _ => destruct (D H) as (? & ? & ?)
        end; auto.
    + sep_simpl.
      repeat split; auto; try discriminate;
        match goal with
        | H : has_char comma w = false |- _ => destruct (D H) as (? & ? & ?)
        end; auto.
    + sep_simpl.
      repeat split; auto; try discriminate;
        match goal with
        | H : has_char period w = false |- _ => destruct (C H) as (? & ?)
        end; auto.
Qed.

Lemma digits_value_periods (ds : str) :
  Forall (fun x => is_digit x = true \/ x = period) ds ->
  forall acc, Float.digits_value ds acc = None <-> 1 <= count_char period ds.
Proof.
  induction 1 as [|x ds Hx Hs IH]; intros acc; cbn [Float.digits_value].
  - split; [discriminate|]. unfold count_char. simpl. lia.
  - rewrite count_char_cons. destruct Hx as [Hx| ->].
    + destruct (eqb_digit_separator x Hx) as (_ & _ & E & _).
      rewrite Hx, E. apply IH.
    + change (is_digit period) with false.
      change (Ascii.eqb period period) with true. split; [lia|reflexivity].
Qed.

Lemma split_point_spec (s : str) :
  Forall (fun x => is_digit x = true \/ x = period) s ->
  exists ip,
    Forall (fun x => is_digit x = true) ip
    /\ ((Float.split_point s = (ip, None) /\ s = ip)
        \/ exists tail,
             Float.split_point s = (ip, Some tail)
             /\ s = ip ++ period :: tail
             /\ Forall (fun x => is_digit x = true \/ x = period) tail).
Proof.
  induction 1 as [|x s Hx Hs IH].
  - exists []. split; [constructor|]. left. split; reflexivity.
  - cbn [Float.split_point]. destruct Hx as [Hx| ->].
    + destruct (eqb_digit_separator x Hx) as (E & _).
      change "."%char with period. rewrite E.
      destruct IH as (ip & Hip & [[E1 E2]|(tail & E1 & E2 & Ht)]).
      * exists (x :: ip). split; [constructor; auto|]. left.
        rewrite E1, <- E2. split; reflexivity.
      * exists (x :: ip). split; [constructor; auto|]. right. exists tail.
        rewrite E1, E2. repeat split; auto.
    + exists []. split; [constructor|]. right. exists s.
      repeat split; auto.
Qed.

Lemma count_char_digits (c : ascii) (ds : str) :
  c = period \/ c = comma ->
  Forall (fun x => is_digit x = true) ds -> count_char c ds = 0.
Proof.
  intros Hc. induction 1 as [|x ds Hx Hs IH]; [reflexivity|].
  rewrite count_char_cons, IH.
  destruct (eqb_digit_separator x Hx) as (_ & _ & E3 & E4).
  destruct Hc as [-> | ->]; [rewrite E3|rewrite E4]; reflexivity.
Qed.

(** [float] rejects a numeral of digits and periods exactly when it has
    two periods or more. *)
Lemma of_str_periods (d : ascii) (w : str) :
  is_digit d = true ->
  Forall (fun x => is_digit x = true \/ x = period) w ->
  Float.of_str (d :: w) = None <-> 2 <= count_char period (d :: w).
Proof.
  intros Hd Hw.
  assert (Hs : Forall (fun x => is_digit x = true \/ x = period) (d :: w))
    by (constructor; auto).
  destruct (split_point_spec _ Hs) as (ip & Hip & [[E1 E2]|(tl & E1 & E2 & Ht)]);
    unfold Float.of_str; rewrite E1.
  - subst ip. rewrite app_nil_r.
    rewrite (count_char_digits period _ (or_introl eq_refl) Hip).
    destruct (digits_value_some _ Hip 0%N) as (n & En).
    rewrite En. split; [discriminate|lia].
  - destruct ip as [|d' ip'].
    { cbn [app] in E2. injection E2 as -> _. discriminate Hd. }
    rewrite E2, count_char_app, (count_char_cons period period tl).
    change (Ascii.eqb period period) with true.
    rewrite (count_char_digits period _ (or_introl eq_refl) Hip).
    assert (Hall : Forall (fun x => is_digit x = true \/ x = period)
                     ((d' :: ip') ++ tl)).
    { apply Forall_app. split; [|exact Ht].
      eapply Forall_impl; [|exact Hip]. intros; auto. }
    pose proof (digits_value_periods _ Hall 0%N) as Hv.
    rewrite count_char_app,
      (count_char_digits period _ (or_introl eq_refl) Hip) in Hv.
    cbn [app] in Hv |- *.
    destruct (Float.digits_value (d' :: ip' ++ tl) 0) eqn:Ev.
    + split; [discriminate|]. intros H2.
      assert (Hn : @None N = None) by reflexivity.
      destruct Hv as [_ Hv]. cbn [Nat.add] in Hv, H2.
      assert (Some n = None) by (apply Hv; lia). discriminate.
    + split; [|reflexivity]. intros _. destruct Hv as [Hv _].
      specialize (Hv eq_refl). cbn [Nat.add] in Hv |- *. lia.
Qed.

Lemma dollar_numeral_shape (text m : str) :
  In m (findall false dollar_sign_pattern text) ->
  exists d w,
    m = d :: w /\ is_digit d = true
    /\ Forall (fun x => is_digit x = true \/ x = period \/ x = comma) w.
Proof.
  intros H. apply findall_In in H. destruct H as (p & s & st & HM & ->).
  assert (He : ends_with
                 (Grp 1 (Seq (times 1 3 digit)
                             (Seq (star (Seq sep (exactly 3 digit)))
                                  (opt (Seq sep (exactly 2 digit))))))
                 dollar_sign_pattern) by (simpl; auto 10).
  destruct (Match_ends_with false _ _ He _ _ HM) as (a & Hg).
  destruct Hg as (b & H & ->).
  rewrite (findall_item_group dollar_sign_pattern _ 0 eq_refl).
  unfold group_str, group.
  cbn [m_caps caps lookup Nat.eqb].
  set (P := fun x => is_digit x = true \/ x = period \/ x = comma).
  assert (Hsep : forall c, sym_match false [IChar period; IChar comma] c = true
                           -> P c).
  { intros c. unfold P.
    destruct c as [[] [] [] [] [] [] [] []]; vm_compute; intros Hc;
      first [discriminate Hc | auto]. }
  assert (Hs : syms_sat false P
                 (Seq (times 1 3 digit)
                      (Seq (star (Seq sep (exactly 3 digit)))
                           (opt (Seq sep (exactly 2 digit)))))).
  { simpl. repeat split; auto;
      intros c Hc; rewrite orb_false_r in Hc; left; exact Hc. }
  destruct (Match_consumed false P _ a b Hs H) as (Ec & Fc & Pc).
  destruct H as (m1 & H1 & H2).
  assert (Hs2 : syms_sat false P
                  (Seq (star (Seq sep (exactly 3 digit)))
                       (opt (Seq sep (exactly 2 digit))))) by apply Hs.
  destruct (Match_word false P _ Hs2 _ _ H2) as (w2 & _ & P2 & _).
  destruct H1 as (n & Hn & _ & H1).
  pose proof (Iter_Sym_pos _ _ _ _ _ H1) as P1.
  destruct H1 as [x|n a0 x m1 Hax _ _]; [lia|].
  destruct Hax as (d & s' & Ea & Hd & _). rewrite sym_digit in Hd.
  destruct (consumed a0 b) as [|d0 w] eqn:Ecs.
  { simpl in Pc. lia. }
  rewrite Ea in Ec. cbn [app] in Ec. injection Ec as <- _.
  exists d, w. inversion Fc. auto.
Qed.

Lemma has_char_false_count (c : ascii) (s : str) :
  has_char c s = false -> count_char c s = 0.
Proof.
  induction s as [|x s IH]; [reflexivity|].
  rewrite has_char_cons, count_char_cons.
  destruct (Ascii.eqb c x); [discriminate|]. exact IH.
Qed.

Lemma candidate_length (amount_str : str) (mk : spec_float -> amount_info) :
  List.length (candidate amount_str mk)
  = match Float.of_str amount_str with Some _ => 1 | None => 0 end.
Proof. unfold candidate. destruct (Float.of_str amount_str); reflexivity. Qed.

Lemma flat_map_filter_length (X Y : Type) (f : X -> list Y) (keep : X -> bool)
  (l : list X) :
  (forall x, In x l -> List.length (f x) = if keep x then 1 else 0) ->
  List.length (flat_map f l) = List.length (filter keep l).
Proof.
  induction l as [|x l IH]; intros H; [reflexivity|].
  cbn [flat_map filter]. rewrite length_app, (H x (or_introl eq_refl)), IH.
  - destruct (keep x); reflexivity.
  - intros y Hy. apply H. simpl. auto.
Qed.

Lemma of_str_none_leb (s : str) (n : nat) :
  (Float.of_str s = None <-> 2 <= n) ->
  match Float.of_str s with Some _ => 1 | None => 0 end
  = if 2 <=? n then 0 else 1.
Proof.
  intros H. destruct (Nat.leb_spec 2 n) as [Hn|Hn].
  - destruct H as [_ H]. rewrite (H Hn). reflexivity.
  - destruct (Float.of_str s); [reflexivity|].
    destruct H as [H _]. specialize (H eq_refl). lia.
Qed.

(** X14: a [$] numeral is discarded exactly when the text made of it is
    not a number.  With a Colombian bank detected that is: two or more
    commas, or no comma, two or more periods and a last group not of three
    characters; without one it is two or more periods.  All other [$]
    matches give one candidate each. *)
Theorem dollar_candidates_counted (text : str) (colombian : bool) :
  List.length (dollar_amounts colombian text)
  = List.length (filter (fun m => negb (dollar_dropped colombian m))
                        (findall false dollar_sign_pattern text)).
Proof.
  unfold dollar_amounts. apply flat_map_filter_length. intros m Hm.
  destruct (dollar_numeral_shape text m Hm) as (d & w & -> & Hd & Hw).
  assert (Hm' : Forall (fun x => is_digit x = true \/ x = period \/ x = comma)
                  (d :: w)) by (constructor; auto).
  destruct (numeral_chars_replaced (d :: w) Hm')
    as ((A1 & A2) & (B1 & B2) & C & D).
  destruct (eqb_digit_separator d Hd) as (E1 & E2 & E3 & E4).
  rewrite replace_char_cons, E2 in A1, A2. cbn [app] in A1, A2.
  destruct colombian; rewrite candidate_length; unfold dollar_dropped.
  - unfold dollar_amount_str.
    destruct (has_char period (d :: w)) eqn:Hp;
      destruct (has_char comma (d :: w)) eqn:Hc; cbn [andb negb orb].
    + unfold cop_amount_str in *.
      rewrite !replace_char_cons, E1 in B1, B2 |- *. cbn [app] in B1, B2 |- *.
      rewrite !replace_char_cons, E2 in B1, B2 |- *. cbn [app] in B1, B2 |- *.
      inversion B1 as [|? ? _ B1']. rewrite <- B2.
      rewrite (of_str_none_leb _ _ (of_str_periods d _ Hd B1')).
      rewrite orb_false_r. destruct (2 <=? _); reflexivity.
    + destruct (D eq_refl) as (D1 & D2 & D3). rewrite D2.
      rewrite (has_char_count _ _ Hp). change (2 <=? 0) with false.
      cbn [andb orb].
      destruct (List.length (last_segment period (d :: w)) =? 3).
      * rewrite andb_false_r. cbn [negb].
        rewrite replace_char_cons, E1 in D3 |- *. cbn [app] in D3 |- *.
        inversion D3 as [|? ? _ D3'].
        destruct (of_str_decimal d _ [] D3 (or_introl eq_refl)) as (f & Ef).
        rewrite app_nil_r in Ef. rewrite Ef. reflexivity.
      * rewrite andb_true_r. cbn [negb]. inversion D1 as [|? ? _ D1'].
        rewrite (of_str_none_leb _ _ (of_str_periods d _ Hd D1')).
        destruct (2 <=? _); reflexivity.
    + destruct (C eq_refl) as (C1 & C2).
      rewrite replace_char_cons, E2 in C1, C2 |- *. cbn [app] in C1, C2 |- *.
      inversion C1 as [|? ? _ C1']. rewrite <- C2.
      rewrite (of_str_none_leb _ _ (of_str_periods d _ Hd C1')).
      rewrite orb_false_r. destruct (2 <=? _); reflexivity.
    + destruct (C eq_refl) as (C1 & C2).
      rewrite (has_char_false_count _ _ Hp). change (2 <=? 0) with false.
      cbn [andb]. rewrite orb_false_r.
      rewrite replace_char_cons, E2 in C1, C2 |- *. cbn [app] in C1, C2 |- *.
      inversion C1 as [|? ? _ C1']. rewrite <- C2.
      rewrite (of_str_none_leb _ _ (of_str_periods d _ Hd C1')).
      destruct (2 <=? _); reflexivity.
  - rewrite replace_char_cons, E2. cbn [app].
    inversion A1 as [|? ? _ A1']. rewrite <- A2.
    rewrite (of_str_none_leb _ _ (of_str_periods d _ Hd A1')).
    destruct (2 <=? _); reflexivity.
Qed.

(** ** The dollar rule for numerals with periods only *)

Lemma digits_value_skip (m : str) :
  Forall (fun x => is_digit x = true \/ x = period) m ->
  forall acc,
    Float.digits_value (replace_char period [] m) acc
    = Some (digits_from m acc).
Proof.
  induction 1 as [|x m Hx Hm IH]; intros acc; [reflexivity|].
  rewrite replace_char_cons. cbn [digits_from].
  destruct Hx as [Hx| ->].
  - destruct (eqb_digit_separator x Hx) as (E & _). rewrite E, Hx.
    cbn [app Float.digits_value]. rewrite Hx. apply IH.
  - change (Ascii.eqb period period) with true.
    change (is_digit period) with false. cbn [app]. apply IH.
Qed.

Lemma of_str_digits (d : ascii) (ds : str) :
  Forall (fun x => is_digit x = true) (d :: ds) ->
  forall n, Float.digits_value (d :: ds) 0 = Some n ->
  Float.of_str (d :: ds) = Some (Float.of_decimal n 0).
Proof.
  intros H n En. unfold Float.of_str.
  destruct (split_point_digits (d :: ds) [] H) as [_ E]. rewrite E.
  rewrite app_nil_r, En. reflexivity.
Qed.

Lemma last_segment_after (c : ascii) (ip tl : str) :
  has_char c tl = false -> last_segment c (ip ++ c :: tl) = tl.
Proof.
  intros H. induction ip as [|x ip IH]; cbn [app last_segment].
  - rewrite H, Ascii.eqb_refl. reflexivity.
  - replace (has_char c (ip ++ c :: tl)) with true; [exact IH|].
    symmetry. unfold has_char. rewrite existsb_app. cbn [existsb].
    rewrite Ascii.eqb_refl, orb_true_r. reflexivity.
Qed.

Lemma no_period_digits (s : str) :
  Forall (fun x => is_digit x = true \/ x = period) s ->
  count_char period s = 0 ->
  Forall (fun x => is_digit x = true) s /\ has_char period s = false.
Proof.
  induction 1 as [|x s Hx Hs IH]; [split; [constructor|reflexivity]|].
  rewrite count_char_cons, has_char_cons. destruct Hx as [Hx| ->].
  - destruct (eqb_digit_separator x Hx) as (_ & _ & E & _). rewrite E.
    intros H0. destruct (IH H0). split; [constructor; auto|assumption].
  - change (Ascii.eqb period period) with true. discriminate.
Qed.

Lemma Forall2_map_self (X Y : Type) (P : X -> Y -> Prop) (f : X -> Y)
  (l : list X) :
  (forall x, In x l -> P x (f x)) -> Forall2 P l (map f l).
Proof.
  induction l as [|x l IH]; intros H; [constructor|].
  cbn [map]. constructor.
  - apply H. left. reflexivity.
  - apply IH. intros y Hy. apply H. right. exact Hy.
Qed.

(** What one numeral with periods and no comma contributes. *)
Lemma periods_only_candidate (text m : str)
  (mk : spec_float -> amount_info) :
  (forall a, amount (mk a) = a /\ currency (mk a) = lit "COP") ->
  In m (findall false dollar_sign_pattern text) ->
  has_char period m = true -> has_char comma m = false ->
  periods_only_reading m (candidate (dollar_amount_str m) mk).
Proof.
  intros Hmk Hm Hp Hc.
  destruct (dollar_numeral_shape text m Hm) as (d & w & -> & Hd & Hw).
  assert (Hm' : Forall (fun x => is_digit x = true \/ x = period \/ x = comma)
                  (d :: w)) by (constructor; auto).
  destruct (numeral_chars_replaced (d :: w) Hm') as (_ & _ & _ & D).
  destruct (D Hc) as (D1 & _ & D3).
  unfold dollar_amount_str, periods_only_reading.
  rewrite Hp, Hc, (has_char_count _ _ Hp). cbn [andb].
  destruct (List.length (last_segment period (d :: w)) =? 3).
  - (* thousands separators *)
    pose proof (digits_value_skip (d :: w) D1 0%N) as En.
    rewrite replace_char_cons in D3, En |- *.
    destruct (eqb_digit_separator d Hd) as (E & _).
    rewrite E in D3, En |- *. cbn [app] in D3, En |- *.
    unfold candidate. rewrite (of_str_digits d _ D3 _ En).
    exists (mk (Float.of_decimal (digits_from (d :: w) 0) 0)).
    destruct (Hmk (Float.of_decimal (digits_from (d :: w) 0) 0)).
    repeat split; assumption.
  - destruct (count_char period (d :: w) =? 1) eqn:E1.
    + (* a single period: the decimal point *)
      apply Nat.eqb_eq in E1.
      destruct (split_point_spec _ D1)
        as (ip & Hip & [[Es Em]|(tl & Es & Em & Ht)]).
      { rewrite Em, (count_char_digits period ip (or_introl eq_refl) Hip)
          in E1. discriminate. }
      assert (Htl : count_char period tl = 0).
      { rewrite Em, count_char_app, (count_char_cons period period tl),
          (count_char_digits period ip (or_introl eq_refl) Hip) in E1.
        change (Ascii.eqb period period) with true in E1. simpl in E1. lia. }
      destruct (no_period_digits tl Ht Htl) as (Hdt & Hnt).
      pose proof (digits_value_skip (d :: w) D1 0%N) as En.
      assert (Er : replace_char period [] (d :: w) = ip ++ tl).
      { rewrite Em, replace_char_app, replace_char_cons.
        change (Ascii.eqb period period) with true. cbn [app].
        rewrite !replace_char_other; [reflexivity | |].
        - eapply Forall_impl; [|exact Hdt].
          intros x Hx. apply (digit_not_separator x Hx).
        - eapply Forall_impl; [|exact Hip].
          intros x Hx. apply (digit_not_separator x Hx). }
      rewrite Er in En.
      assert (El : last_segment period (d :: w) = tl).
      { rewrite Em. apply last_segment_after. exact Hnt. }
      rewrite El. unfold candidate, Float.of_str. rewrite Es.
      destruct ip as [|d' ip'].
      { cbn [app] in Em. injection Em as -> _. discriminate Hd. }
      cbn [app] in En |- *. rewrite En.
      exists (mk (Float.of_decimal (digits_from (d :: w) 0) (List.length tl))).
      destruct (Hmk (Float.of_decimal (digits_from (d :: w) 0)
                       (List.length tl))).
      repeat split; assumption.
    + (* several periods: not a number *)
      apply Nat.eqb_neq in E1.
      pose proof (has_char_count _ _ Hp) as H1. apply Nat.leb_le in H1.
      inversion D1 as [|? ? _ D1'].
      assert (Hn : Float.of_str (d :: w) = None)
        by (apply (of_str_periods d w Hd D1'); lia).
      unfold candidate. rewrite Hn. reflexivity.
Qed.

(** The claim C2 as stated fails twice.  "$ 200.000.000" contains
    "$ 200.000" and is read as two hundred million: no candidate has the
    value 200000.  And the numeral of "$ 1.234.56" holds periods only and
    does not end in three digits, yet no period of it is read as a decimal
    point: the numeral is discarded, and the fallback rule reads "1.234"
    instead. *)
Lemma dollar_200000_continued :
  contains (lit "$ 200.000") (lit "Pagaste $ 200.000.000") = true
  /\ is_colombian_bank (Some [lit "Bancolombia"]) = true
  /\ map (fun c => (Float.value (amount c), currency c))
         (extract_amounts (lit "Pagaste $ 200.000.000")
                          (Some [lit "Bancolombia"]))
     = [(Some (200000000 # 1), lit "COP")]
  /\ findall false dollar_sign_pattern (lit "$ 1.234.56") = [lit "1.234.56"]
  /\ dollar_amounts true (lit "$ 1.234.56") = []
  /\ map (fun c => (Float.value (amount c), currency c, formatted c))
         (extract_amounts (lit "$ 1.234.56") (Some [lit "Bancolombia"]))
     = [(Some (1234 # 1), lit "COP", lit "1.234")].
Proof. repeat split; vm_compute; reflexivity. Qed.

(** C2, amended: with a Colombian bank detected, the priority-3
    candidates are the contributions of the [$] matches in order, and a
    match whose numeral holds periods and no comma contributes as
    follows.  If the part after the last period has three characters, all
    periods are thousands separators: one COP candidate whose value is the
    whole number written by the digits.  Otherwise, if the numeral has a
    single period, that period is the decimal point: one COP candidate
    with the digits after it as decimals.  Otherwise the numeral is not a
    number and the match contributes nothing.  Every priority-3 candidate
    is in the result of the cascade.  A text that contains "$ 200.000",
    not followed by a period or comma and two digits, yields a candidate
    with value 200000 and currency COP. *)
Theorem dollar_periods_only_rule (text pre post : str)
  (banks : option (list str)) :
  is_colombian_bank banks = true -> numeral_continues post = false ->
  (exists contributions,
     dollar_amounts (is_colombian_bank banks) text = List.concat contributions
     /\ Forall2 (fun m cs =>
                   has_char period m = true -> has_char comma m = false ->
                   periods_only_reading m cs)
                (findall false dollar_sign_pattern text) contributions)
  /\ (forall c, In c (dollar_amounts (is_colombian_bank banks) text) ->
                In c (extract_amounts text banks))
  /\ exists c,
       In c (extract_amounts (pre ++ lit "$ 200.000" ++ post) banks)
       /\ Float.value (amount c) = Some (200000 # 1)
       /\ currency c = lit "COP".
Proof.
  intros Hb Hpost. rewrite Hb. split; [|split].
  - unfold dollar_amounts. rewrite flat_map_concat_map.
    eexists. split; [reflexivity|].
    apply Forall2_map_self. intros m Hm Hp Hc.
    apply (periods_only_candidate text); auto.
  - intros c Hc. apply In_prefixed_extract_amounts. rewrite Hb.
    apply in_or_app. right. apply in_or_app. right. exact Hc.
  - exists cop_200000. split; [|split].
    + apply In_prefixed_extract_amounts. rewrite Hb.
      apply in_or_app. right. apply in_or_app. right.
      apply dollar_amounts_200000. exact Hpost.
    + apply cop_200000_value.
    + reflexivity.
Qed.

Lemma dollar_periods_only_rule_witness :
  (exists contributions,
     dollar_amounts (is_colombian_bank (Some [lit "Bancolombia"]))
                    (lit "Pagaste $ 200.000, $ 12.50 y $ 1.234.56")
     = List.concat contributions
     /\ Forall2 (fun m cs =>
                   has_char period m = true -> has_char comma m = false ->
                   periods_only_reading m cs)
                (findall false dollar_sign_pattern
                         (lit "Pagaste $ 200.000, $ 12.50 y $ 1.234.56"))
                contributions)
  /\ (forall c,
        In c (dollar_amounts (is_colombian_bank (Some [lit "Bancolombia"]))
                             (lit "Pagaste $ 200.000, $ 12.50 y $ 1.234.56")) ->
        In c (extract_amounts (lit "Pagaste $ 200.000, $ 12.50 y $ 1.234.56")
                              (Some [lit "Bancolombia"])))
  /\ exists c,
       In c (extract_amounts (lit "Pagaste " ++ lit "$ 200.000" ++ lit ". Gracias")
                             (Some [lit "Bancolombia"]))
       /\ Float.value (amount c) = Some (200000 # 1)
       /\ currency c = lit "COP".
Proof.
  apply (dollar_periods_only_rule
           (lit "Pagaste $ 200.000, $ 12.50 y $ 1.234.56")
           (lit "Pagaste ") (lit ". Gracias") (Some [lit "Bancolombia"]));
    vm_compute; reflexivity.
Defined.

(** The three readings on one text: 200000, 12.5, and nothing for
    "1.234.56". *)
Example dollar_periods_only_readings :
  findall false dollar_sign_pattern
          (lit "Pagaste $ 200.000, $ 12.50 y $ 1.234.56")
  = [lit "200.000"; lit "12.50"; lit "1.234.56"]
  /\ map (fun c => (Float.value (amount c), currency c))
         (dollar_amounts true (lit "Pagaste $ 200.000, $ 12.50 y $ 1.234.56"))
     = [(Some (200000 # 1), lit "COP"); (Some (25 # 2), lit "COP")]
  /\ Float.value (Float.of_decimal (digits_of (lit "200.000")) 0)
     = Some (200000 # 1)
  /\ Float.value (Float.of_decimal (digits_of (lit "12.50")) 2)
     = Some (25 # 2).
Proof. repeat split; vm_compute; reflexivity. Qed.

(** ** The type of a card *)

Lemma Match_word_icase (s : str) (a b : mstate) :
  Match true (fold_right (fun c r => Seq (Sym [IChar c]) r) Eps s) a b ->
  exists w, rest a = w ++ rest b /\ lower w = lower s.
Proof.
  revert a. induction s as [|c s IH]; intros a; cbn [fold_right Match].
  - intros ->. exists []. split; reflexivity.
  - intros (m & (x & r & Ea & Hx & ->) & H).
    destruct (IH _ H) as (w & Ew & Hl). cbn [rest] in Ew.
    exists (x :: w). rewrite Ea, Ew. split; [reflexivity|].
    cbn [lower map]. f_equal; [|exact Hl].
    cbn [sym_match existsb item_match] in Hx. rewrite orb_false_r in Hx.
    apply Ascii.eqb_eq. exact Hx.
Qed.

Lemma Match_alt_words (ws : list string) (a b : mstate) :
  ws <> [] -> Match true (alt (map word ws)) a b ->
  exists s, In s ws /\ Match true (word s) a b.
Proof.
  induction ws as [|s ws IH]; [congruence|]. intros _.
  destruct ws as [|s' ws'].
  - cbn [map alt]. intros H. exists s. simpl. auto.
  - change (alt (map word (s :: s' :: ws')))
      with (Alt (word s) (alt (map word (s' :: ws')))).
    intros [H|H].
    + exists s. simpl. auto.
    + destruct (IH ltac:(discriminate) H) as (x & Hx & HM).
      exists x. split; [right; exact Hx|exact HM].
Qed.

(** The first group of the two card patterns that name a card. *)
Lemma Match_card_word (ws : list string) (a b : mstate) :
  ws <> [] ->
  Match true
    (Seq (Grp 1 (alt (map word ws)))
         (Seq (star space)
              (Seq (Sym [IChar "*"%char]) (Grp 2 (exactly 4 digit))))) a b ->
  exists w s post,
    In s ws /\ lookup 1 (caps b) = Some w /\ lower w = lower (lit s)
    /\ rest a = w ++ post.
Proof.
  intros Hws (m & (x & Hx & ->) & m2 & Hsp & m3 & Hast & (x2 & Hd & ->)).
  destruct (Match_consumed true (fun _ => True) _ a x (syms_sat_True true _) Hx)
    as (Ec & _ & _).
  destruct (Match_alt_words ws a x Hws Hx) as (s & Hs & Hw).
  destruct (Match_word_icase (lit s) a x Hw) as (w & Ew & Hl).
  assert (E : consumed a x = w).
  { apply (app_inv_tail (rest x)). rewrite <- Ec. exact Ew. }
  pose proof (Match_caps_plain true (star space) eq_refl _ _ Hsp) as C1.
  pose proof (Match_caps_plain true (Sym [IChar "*"%char]) eq_refl _ _ Hast)
    as C2.
  pose proof (Match_caps_plain true (exactly 4 digit) eq_refl _ _ Hd) as C3.
  exists w, s, (rest x). repeat split; auto.
  cbn [caps lookup Nat.eqb]. rewrite C3, C2, C1. cbn [caps lookup Nat.eqb].
  rewrite E. reflexivity.
Qed.

(** X15: the type of a card is "Credit Card", "Debit Card" or "Unknown",
    or else one of the six words of the patterns exactly as the text has
    it, in whatever letter case; the Colombian words are translated only
    when written "T.Cred", "Tarjeta" or "T.Deb", so none of these three is
    ever returned. *)
Theorem card_type_values (text : str) (ci : card_info_t) :
  extract_card_info text = Some ci ->
  (In (card_type ci) [lit "Credit Card"; lit "Debit Card"; lit "Unknown"]
   \/ (In (lower (card_type ci)) (map lower card_words)
       /\ occurs_in (card_type ci) text))
  /\ ~ In (card_type ci) [lit "T.Cred"; lit "Tarjeta"; lit "T.Deb"].
Proof.
  unfold extract_card_info.
  destruct (first_match true card_patterns text) as [[pattern m]|] eqn:E;
    [|discriminate].
  apply first_match_suffix in E. destruct E as (Hin & p & pre & s & -> & E).
  apply match_here_sound in E. destruct E as (st & HM & ->).
  assert (Hraw : forall w x post,
            In x ["T.Cred"; "T.Deb"; "Tarjeta"; "Credit"; "Debit"; "Card"]%string ->
            lower w = lower (lit x) -> s = w ++ post ->
            forall t,
              t = (if (contains (lit "T.Cred") w || contains (lit "Tarjeta") w)%bool
                   then lit "Credit Card"
                   else if contains (lit "T.Deb") w then lit "Debit Card"
                   else w) ->
              (In t [lit "Credit Card"; lit "Debit Card"; lit "Unknown"]
               \/ (In (lower t) (map lower card_words)
                   /\ occurs_in t (pre ++ s)))
              /\ ~ In t [lit "T.Cred"; lit "Tarjeta"; lit "T.Deb"]).
  { intros w x post Hx Hl Es t ->.
    destruct (contains (lit "T.Cred") w || contains (lit "Tarjeta") w)%bool
      eqn:E1.
    { split; [left; simpl; auto|]. intros [H|[H|[H|[]]]]; discriminate H. }
    destruct (contains (lit "T.Deb") w) eqn:E2.
    { split; [left; simpl; auto|]. intros [H|[H|[H|[]]]]; discriminate H. }
    split.
    - right. split.
      + rewrite Hl. unfold card_words. rewrite map_map.
        apply (in_map (fun y => lower (lit y))) in Hx. exact Hx.
      + exists pre, post. rewrite Es. reflexivity.
    - intros [H|[H|[H|[]]]]; subst w; vm_compute in E1, E2; discriminate. }
  destruct Hin as [<-|[<-|[<-|[]]]].
  - apply Match_card_word in HM; [|discriminate].
    destruct HM as (w & x & post & Hx & Hl & Hw & Er). cbn [rest] in Er.
    intros H. injection H as <-. cbn [card_type].
    apply (Hraw w x post); auto.
    + simpl in Hx |- *. tauto.
    + unfold group_str, group. cbn [m_caps]. rewrite Hl. reflexivity.
  - apply Match_card_word in HM; [|discriminate].
    destruct HM as (w & x & post & Hx & Hl & Hw & Er). cbn [rest] in Er.
    intros H. injection H as <-. cbn [card_type].
    apply (Hraw w x post); auto.
    + simpl in Hx |- *. tauto.
    + unfold group_str, group. cbn [m_caps]. rewrite Hl. reflexivity.
  - intros H. injection H as <-. cbn [card_type].
    split; [left; simpl; auto|]. intros [H|[H|[H|[]]]]; discriminate H.
Qed.

Lemma card_type_values_witness :
  (In (lit "t.cred") [lit "Credit Card"; lit "Debit Card"; lit "Unknown"]
   \/ (In (lower (lit "t.cred")) (map lower card_words)
       /\ occurs_in (lit "t.cred") (lit "Compra con t.cred *9095")))
  /\ ~ In (lit "t.cred") [lit "T.Cred"; lit "Tarjeta"; lit "T.Deb"].
Proof.
  apply (card_type_values (lit "Compra con t.cred *9095")
           (CardInfo (lit "t.cred") (lit "9095"))).
  vm_compute. reflexivity.
Defined.
